(** * pts2-node: the jsonPTS protocol client, embedded and verified

    A shallow embedding of the core of the client: configuration loading
    (config.ts), the envelope codec (jsonpts.ts), the Digest authenticator
    (digest.ts) and the transport and protocol client (Pts2Client.ts),
    followed by the properties proved of them.

    Conventions of the embedding:
    - a JavaScript string is a [string]; whitespace classification and case
      mapping are those of JavaScript on the ASCII range, characters above
      127 being neither whitespace nor letters here;
    - a JavaScript number is an integer [Z], and [Js.number] adds [NaN] where
      the source can produce it ([Number.parseInt]); the embedding is exact
      on the safe integers ([Js.isSafeInteger]), and JSON numbers with a
      fractional part are not represented;
    - [undefined] is [None]; a thrown exception is the [Throw] case of
      [Result]; an [async] method of the client is a function of the
      client's state returning a result and the next state;
    - what the source imports from outside the repository ([fetch], the
      hashes and random bytes of [node:crypto], [JSON.parse], base64) is a
      parameter, the class [Runtime]. *)

From Stdlib Require Import ZArith Ascii String List Lia.
From stdpp Require Import base option list gmap strings sorting pretty.

Local Open Scope Z_scope.
Local Open Scope string_scope.

(** ** JavaScript string built-ins *)

Module Js.

(** [WhiteSpace] and [LineTerminator] code points below 128: what
    [String.prototype.trim], [parseInt] and the regex class [\s] skip. *)
Definition is_space (c : ascii) : bool :=
  match nat_of_ascii c with
  | 9%nat | 10%nat | 11%nat | 12%nat | 13%nat | 32%nat => true
  | _ => false
  end.

(** The characters the regex [.] does not match. *)
Definition is_line_terminator (c : ascii) : bool :=
  match nat_of_ascii c with
  | 10%nat | 13%nat => true
  | _ => false
  end.

(** The ASCII range, on which the classification above and the case
    mapping below are those of the language. *)
Definition is_ascii (c : ascii) : bool := (nat_of_ascii c <? 128)%nat.

Fixpoint all_ascii (s : string) : bool :=
  match s with
  | EmptyString => true
  | String c s' => is_ascii c && all_ascii s'
  end.

Definition lower_char (c : ascii) : ascii :=
  let n := nat_of_ascii c in
  if ((65 <=? n) && (n <=? 90))%nat then ascii_of_nat (n + 32) else c.

Definition upper_char (c : ascii) : ascii :=
  let n := nat_of_ascii c in
  if ((97 <=? n) && (n <=? 122))%nat then ascii_of_nat (n - 32) else c.

Fixpoint map_chars (f : ascii -> ascii) (s : string) : string :=
  match s with
  | EmptyString => EmptyString
  | String c s' => String (f c) (map_chars f s')
  end.

Definition toLowerCase : string -> string := map_chars lower_char.
Definition toUpperCase : string -> string := map_chars upper_char.

Fixpoint trimStart (s : string) : string :=
  match s with
  | String c s' => if is_space c then trimStart s' else s
  | EmptyString => EmptyString
  end.

Definition trimEnd (s : string) : string :=
  String.rev (trimStart (String.rev s)).

Definition trim (s : string) : string := trimEnd (trimStart s).

Fixpoint startsWith (s p : string) : bool :=
  match p, s with
  | EmptyString, _ => true
  | String a p', String b s' => if decide (a = b) then startsWith s' p' else false
  | String _ _, EmptyString => false
  end.

Definition endsWith (s p : string) : bool :=
  startsWith (String.rev s) (String.rev p).

(** [s.includes(p)]: [p] occurs in [s] as a substring. *)
Fixpoint includes (s p : string) : bool :=
  startsWith s p ||
  match s with
  | EmptyString => false
  | String _ s' => includes s' p
  end.

(** [s.indexOf(c)] for a one-character needle; [None] stands for -1. *)
Fixpoint indexOf (s : string) (c : ascii) : option nat :=
  match s with
  | EmptyString => None
  | String b s' => if decide (b = c) then Some 0%nat else S <$> indexOf s' c
  end.

Fixpoint drop (n : nat) (s : string) : string :=
  match n, s with
  | O, _ => s
  | S n', String _ s' => drop n' s'
  | S _, EmptyString => EmptyString
  end.

Fixpoint take (n : nat) (s : string) : string :=
  match n, s with
  | O, _ => EmptyString
  | S n', String c s' => String c (take n' s')
  | S _, EmptyString => EmptyString
  end.

(** [s.slice(1, -1)]. *)
Definition slice_1_m1 (s : string) : string :=
  take (String.length s - 2) (drop 1 s).

Fixpoint repeat_char (c : ascii) (n : nat) : string :=
  match n with
  | O => EmptyString
  | S n' => String c (repeat_char c n')
  end.

(** [s.padStart(n, c)] for a one-character filler. *)
Definition padStart (n : nat) (c : ascii) (s : string) : string :=
  repeat_char c (n - String.length s) +:+ s.

(** [parts.join(sep)]. *)
Fixpoint join (sep : string) (l : list string) : string :=
  match l with
  | [] => EmptyString
  | [x] => x
  | x :: l' => x +:+ sep +:+ join sep l'
  end.

(** [s.split(",")]: always at least one piece. *)
Fixpoint split_go (c : ascii) (cur : string) (s : string) : list string :=
  match s with
  | EmptyString => [String.rev cur]
  | String b s' =>
      if decide (b = c) then String.rev cur :: split_go c EmptyString s'
      else split_go c (String b cur) s'
  end.

Definition split (c : ascii) (s : string) : list string :=
  split_go c EmptyString s.

(** A JavaScript number as far as the client computes with it: [NaN] or
    an integer. *)
Inductive number : Type :=
  | NaN
  | Num (z : Z).


Definition digit_val (c : ascii) : option Z :=
  let n := nat_of_ascii c in
  if ((48 <=? n) && (n <=? 57))%nat then Some (Z.of_nat n - 48) else None.

(** The longest prefix of decimal digits, as its value; [None] when the
    prefix is empty. *)
Fixpoint parse_digits (s : string) (acc : option Z) : option Z :=
  match s with
  | EmptyString => acc
  | String c s' =>
      match digit_val c with
      | Some d => parse_digits s' (Some (10 * default 0 acc + d))
      | None => acc
      end
  end.

(** [Number.parseInt(s, 10)]: leading whitespace is skipped, one sign is
    read, then the longest run of decimal digits; [NaN] when that run is
    empty. The value is exact, as it is in the language for a safe
    integer. *)
Definition parseInt (s : string) : number :=
  let s1 := trimStart s in
  let '(sign, s2) :=
    match s1 with
    | String "-" r => (-1, r)
    | String "+" r => (1, r)
    | _ => (1, s1)
    end in
  match parse_digits s2 None with
  | None => NaN
  | Some m => Num (sign * m)
  end.

Definition hex_digit (d : N) : ascii :=
  if (d <? 10)%N then ascii_of_N (48 + d) else ascii_of_N (87 + d).

Fixpoint to_hex_go (fuel : nat) (n : N) (acc : string) : string :=
  match fuel with
  | O => acc
  | S f =>
      let acc' := String (hex_digit (n mod 16)) acc in
      if (n / 16 =? 0)%N then acc' else to_hex_go f (n / 16) acc'
  end.

Definition N_to_hex (n : N) : string :=
  to_hex_go (S (N.to_nat (N.log2 n))) n EmptyString.

(** [n.toString(16)] on an integer. *)
Definition toString16 (z : Z) : string :=
  match z with
  | Zneg p => "-" +:+ N_to_hex (Npos p)
  | _ => N_to_hex (Z.to_N z)
  end.

(** [String(n)] on an integer: its decimal digits, as in the language
    for a safe integer. *)
Definition num_to_string (z : Z) : string := pretty z.

End Js.

(** ** Data model (jsonpts.ts) *)

(** The values [JSON.parse] returns. A number is carried as an integer:
    the packets' ids, codes and offsets are integers, and a number with a
    fraction or an exponent is outside the model. *)
#[local] Unset Elimination Schemes.
Inductive JsonValue : Type :=
  | JNull
  | JBool (b : bool)
  | JNum (n : Z)
  | JStr (s : string)
  | JArr (items : list JsonValue)
  | JObj (fields : list (string * JsonValue)).
#[local] Set Elimination Schemes.

(** Property read [o.k] on a plain object; [None] is [undefined]. *)
Fixpoint obj_get (k : string) (fields : list (string * JsonValue)) : option JsonValue :=
  match fields with
  | [] => None
  | (k', v) :: rest => if decide (k' = k) then Some v else obj_get k rest
  end.

(** [String(v)] on a JSON value: an array joins its elements with commas,
    [null] elements giving the empty string. *)
Fixpoint js_String (v : JsonValue) : string :=
  match v with
  | JNull => "null"
  | JBool true => "true"
  | JBool false => "false"
  | JNum n => Js.num_to_string n
  | JStr s => s
  | JArr items =>
      Js.join ","
        (List.map (fun e => match e with JNull => "" | _ => js_String e end) items)
  | JObj _ => "[object Object]"
  end.

(** Truthiness of a JSON value. *)
Definition js_truthy (v : JsonValue) : bool :=
  match v with
  | JNull => false
  | JBool b => b
  | JNum n => negb (n =? 0)%Z
  | JStr s => negb (bool_decide (s = ""))
  | JArr _ | JObj _ => true
  end.

Record JsonPtsPacketRequest : Type := {
  req_type : string;
  req_data : option JsonValue
}.

Record JsonPtsPacketResponse : Type := {
  id : Z;
  type : option string;
  error : bool;
  code : option Js.number;
  message : option string;
  data : option JsonValue
}.

(** ** Errors *)

Inductive TransportKind : Type := Network | Timeout.

(** What the client can throw. The generic [Error]s of the source are kept
    apart by constructor and carry the values their message interpolates. *)
Inductive Thrown : Type :=
  | ZodError (issues : list string)
  | ProtocolMismatch (got : string)
  | MissingId
  | NotDigestChallenge
  | UnauthorizedWithoutChallenge
  | HttpStatus (status : Z) (text : string)
  | NonJson (text : string)
  | JsonSyntaxError
  | TypeError
  | Pts2TransportError (kind : TransportKind) (url : string) (code : option string) (msg : string)
  | PacketCountMismatch (sent got : nat)
  | PacketIdMismatch (index : nat) (got : Z)
  | JsonPtsPacketError (packet : JsonPtsPacketResponse)
  | MissingDateTime.

Inductive Result (A : Type) : Type :=
  | Ok (a : A)
  | Throw (e : Thrown).
Global Arguments Ok {A} a.
Global Arguments Throw {A} e.

(** The message of the two correlation errors of [execute]. *)
Definition correlation_message (e : Thrown) : option string :=
  match e with
  | PacketCountMismatch sent got =>
      Some ("Packet count mismatch: sent " +:+ pretty (Z.of_nat sent) +:+
            ", got " +:+ pretty (Z.of_nat got))
  | PacketIdMismatch i got =>
      Some ("Packet id mismatch at index " +:+ pretty (Z.of_nat i) +:+
            ": got " +:+ pretty got)
  | _ => None
  end.

(** ** config.ts *)

Module Config.

Inductive Security : Type := Http | Https.
Inductive Auth : Type := Basic | Digest.

Record Pts2Config : Type := {
  host : string;
  security : Security;
  httpPort : Z;
  httpsPort : Z;
  auth : Auth;
  login : string;
  password : string;
  timeoutMs : Z;
  tlsInsecure : bool
}.

(** The object literal of [loadPts2ConfigFromEnv], before the schema. *)
Record RawConfig : Type := {
  raw_host : string;
  raw_security : string;
  raw_httpPort : Z;
  raw_httpsPort : Z;
  raw_auth : string;
  raw_login : string;
  raw_password : string;
  raw_timeoutMs : Z;
  raw_tlsInsecure : bool
}.

Definition truthy_words : list string := ["1"; "true"; "yes"; "y"; "on"].
Definition falsy_words : list string := ["0"; "false"; "no"; "n"; "off"].

Definition parseBool (v : option string) (fallback : bool) : bool :=
  match v with
  | None => fallback
  | Some v =>
      let norm := Js.toLowerCase (Js.trim v) in
      if bool_decide (norm ∈ truthy_words) then true
      else if bool_decide (norm ∈ falsy_words) then false
      else fallback
  end.

(** [Number.isFinite(n) ? n : fallback], [n] being [NaN] or an integer. *)
Definition parseIntOr (v : option string) (fallback : Z) : Z :=
  match v with
  | None => fallback
  | Some EmptyString => fallback
  | Some v =>
      match Js.parseInt v with
      | Js.Num n => n
      | Js.NaN => fallback
      end
  end.

Definition parse_security (s : string) : option Security :=
  if decide (s = "http") then Some Http
  else if decide (s = "https") then Some Https
  else None.

Definition parse_auth (s : string) : option Auth :=
  if decide (s = "basic") then Some Basic
  else if decide (s = "digest") then Some Digest
  else None.

(** The issues of [Pts2ConfigSchema], as the paths of the failing fields in
    schema order. [login] and [password] are [z.string()] with no minimum,
    and the remaining fields are well-typed by construction of [RawConfig]. *)
Definition schema_issues (c : RawConfig) : list string :=
  (if decide (String.length (raw_host c) = 0%nat) then ["host"] else []) ++
  (if parse_security (raw_security c) is Some _ then [] else ["security"]) ++
  (if decide (0 < raw_httpPort c) then [] else ["httpPort"]) ++
  (if decide (0 < raw_httpsPort c) then [] else ["httpsPort"]) ++
  (if parse_auth (raw_auth c) is Some _ then [] else ["auth"]) ++
  (if decide (0 < raw_timeoutMs c) then [] else ["timeoutMs"]).

(** [Pts2ConfigSchema.parse]. *)
Definition schema_parse (c : RawConfig) : Result Pts2Config :=
  match schema_issues c, parse_security (raw_security c), parse_auth (raw_auth c) with
  | [], Some sec, Some au =>
      Ok {| host := raw_host c; security := sec;
            httpPort := raw_httpPort c; httpsPort := raw_httpsPort c;
            auth := au; login := raw_login c; password := raw_password c;
            timeoutMs := raw_timeoutMs c; tlsInsecure := raw_tlsInsecure c |}
  | issues, _, _ => Throw (ZodError issues)
  end.

Definition raw_of_env (env : gmap string string) : RawConfig :=
  {| raw_host := default "" (env !! "PTS2_HOST");
     raw_security := Js.toLowerCase (default "https" (env !! "PTS2_SECURITY"));
     raw_httpPort := parseIntOr (env !! "PTS2_HTTP_PORT") 80;
     raw_httpsPort := parseIntOr (env !! "PTS2_HTTPS_PORT") 443;
     raw_auth := Js.toLowerCase (default "digest" (env !! "PTS2_AUTH"));
     raw_login := default "" (env !! "PTS2_LOGIN");
     raw_password := default "" (env !! "PTS2_PASSWORD");
     raw_timeoutMs := parseIntOr (env !! "PTS2_TIMEOUT_MS") 15000;
     raw_tlsInsecure := parseBool (env !! "PTS2_TLS_INSECURE") true |}.

Definition loadPts2ConfigFromEnv (env : gmap string string) : Result Pts2Config :=
  schema_parse (raw_of_env env).

End Config.

(** ** The error monad of the pure code *)

Global Instance Result_ret : MRet Result := fun _ a => Ok a.
Global Instance Result_bind : MBind Result := fun _ _ f m =>
  match m with
  | Ok a => f a
  | Throw e => Throw e
  end.
Global Instance Result_fmap : FMap Result := fun _ _ f m =>
  match m with
  | Ok a => Ok (f a)
  | Throw e => Throw e
  end.

Definition is_ok {A} (r : Result A) : bool :=
  match r with
  | Ok _ => true
  | Throw _ => false
  end.

(** ** jsonpts.ts: the envelope codec *)

(** Response headers as a [Headers] object holds them: lower-case names. *)
Definition Headers : Type := list (string * string).

(** What [postJson] resolves to and [parseEnvelope] receives as [unknown]:
    a parsed JSON body, or the sentinel
    [{ __unauthorized: true, headers }] of a 401. *)
Inductive Raw : Type :=
  | RawJson (v : JsonValue)
  | RawUnauthorized (headers : Headers).

Module Jsonpts.

(** A [Date] as [formatPtsDateTime] reads it: the values of its six
    local-time getters ([getMonth] counts from 0). *)
Record LocalDate : Type := {
  getFullYear : Z;
  getMonth : Z;
  getDate : Z;
  getHours : Z;
  getMinutes : Z;
  getSeconds : Z
}.

Definition pad2 (n : Z) : string := Js.padStart 2 "0" (Js.num_to_string n).

Definition formatPtsDateTime (d : LocalDate) : string :=
  let yyyy := getFullYear d in
  let MM := pad2 (getMonth d + 1) in
  let dd := pad2 (getDate d) in
  let HH := pad2 (getHours d) in
  let mm := pad2 (getMinutes d) in
  let ss := pad2 (getSeconds d) in
  Js.num_to_string yyyy +:+ "-" +:+ MM +:+ "-" +:+ dd +:+ "T" +:+ HH +:+ ":" +:+ mm +:+ ":" +:+ ss.

Definition buildPacket (i : nat) (p : JsonPtsPacketRequest) : JsonValue :=
  let base := [("Id", JNum (Z.of_nat i)); ("Type", JStr (req_type p))] in
  JObj (match req_data p with
        | Some d => base ++ [("Data", d)]
        | None => base
        end).

Definition buildEnvelope (packets : list JsonPtsPacketRequest) : JsonValue :=
  JObj [("Protocol", JStr "jsonPTS");
        ("Packets", JArr (imap buildPacket packets))].

Definition as_record (v : JsonValue) : option (list (string * JsonValue)) :=
  match v with
  | JObj fields => Some fields
  | _ => None
  end.

(** The issues of [JsonPtsResponseSchema] on an object, as paths. *)
Definition response_issues (fields : list (string * JsonValue)) : list string :=
  match obj_get "Protocol" fields with
  | Some (JStr _) => []
  | _ => ["Protocol"]
  end ++
  match obj_get "Packets" fields with
  | Some (JArr items) =>
      concat (imap (fun i v => if as_record v is Some _ then []
                               else ["Packets." +:+ pretty (Z.of_nat i)]) items)
  | _ => ["Packets"]
  end.

(** [JsonPtsResponseSchema.parse]: the protocol string and the packets, each
    a record; unknown top-level keys are dropped. *)
Definition response_schema (raw : Raw) : Result (string * list (list (string * JsonValue))) :=
  match raw with
  | RawUnauthorized _ => Throw (ZodError ["Protocol"; "Packets"])
  | RawJson (JObj fields) =>
      match obj_get "Protocol" fields, obj_get "Packets" fields with
      | Some (JStr protocol), Some (JArr items) =>
          match mapM as_record items with
          | Some records => Ok (protocol, records)
          | None => Throw (ZodError (response_issues fields))
          end
      | _, _ => Throw (ZodError (response_issues fields))
      end
  | RawJson _ => Throw (ZodError [""])
  end.

(** [typeof p.Id === "number" ? p.Id : Number.parseInt(String(p.Id ?? ""), 10)] *)
Definition packet_id (p : list (string * JsonValue)) : Js.number :=
  match obj_get "Id" p with
  | Some (JNum n) => Js.Num n
  | None | Some JNull => Js.parseInt ""
  | Some v => Js.parseInt (js_String v)
  end.

(** The coercion of [Error], a boolean or anything else through its string. *)
Definition packet_error (p : list (string * JsonValue)) : bool :=
  match obj_get "Error" p with
  | Some (JBool b) => b
  | None | Some JNull => negb (bool_decide (Js.toLowerCase "false" = "false"))
  | Some v => negb (bool_decide (Js.toLowerCase (js_String v) = "false"))
  end.

(** The callback of [parsed.Packets.map]; [Number.isFinite(id)] fails
    exactly on [NaN] here. *)
Definition parsePacket (p : list (string * JsonValue)) : Result JsonPtsPacketResponse :=
  match packet_id p with
  | Js.NaN => Throw MissingId
  | Js.Num i =>
      Ok {| id := i;
            error := packet_error p;
            type := js_String <$> obj_get "Type" p;
            code := (fun v => Js.parseInt (js_String v)) <$> obj_get "Code" p;
            message := js_String <$> obj_get "Message" p;
            data := obj_get "Data" p |}
  end.

(** [packets.sort((a, b) => a.id - b.id)]: the sort of the language is
    stable, so its result is the one of any stable sort by [id]. *)
Fixpoint insert_by_id (x : JsonPtsPacketResponse) (l : list JsonPtsPacketResponse)
  : list JsonPtsPacketResponse :=
  match l with
  | [] => [x]
  | y :: l' => if (id x <=? id y)%Z then x :: l else y :: insert_by_id x l'
  end.

Definition sort_by_id (l : list JsonPtsPacketResponse) : list JsonPtsPacketResponse :=
  foldr insert_by_id [] l.

Definition parseEnvelope (raw : Raw) : Result (list JsonPtsPacketResponse) :=
  '(protocol, records) ← response_schema raw;
  if decide (protocol = "jsonPTS") then
    packets ← mapM parsePacket records;
    mret (sort_by_id packets)
  else Throw (ProtocolMismatch protocol).

(** *** Vocabulary for stating the codec's properties *)

(** The order [a.id - b.id <= 0] of the comparator. *)
Definition id_le (a b : JsonPtsPacketResponse) : Prop := (id a <= id b)%Z.

(** One array element, through the schema and the [map] callback. *)
Definition decode_item (v : JsonValue) : option JsonPtsPacketResponse :=
  match as_record v with
  | Some r => match parsePacket r with Ok p => Some p | Throw _ => None end
  | None => None
  end.

(** A top-level field of an envelope. *)
Definition top_field (k : string) (v : JsonValue) : option JsonValue :=
  match v with
  | JObj fields => obj_get k fields
  | _ => None
  end.

(** The wire envelope around a list of packets. *)
Definition envelope_of (items : list JsonValue) : JsonValue :=
  JObj [("Protocol", JStr "jsonPTS"); ("Packets", JArr items)].

(** The response a request packet decodes to when it is read back. *)
Definition echo (i : nat) (p : JsonPtsPacketRequest) : JsonPtsPacketResponse :=
  {| id := Z.of_nat i; type := Some (req_type p); error := false;
     code := None; message := None; data := req_data p |}.

Definition is_digit (c : ascii) : bool :=
  let n := nat_of_ascii c in ((48 <=? n) && (n <=? 57))%nat.

Fixpoint blank (s : string) : bool :=
  match s with
  | EmptyString => true
  | String c s' => Js.is_space c && blank s'
  end.

(** A string begins with an integer: whitespace, at most one sign, then a
    decimal digit, whatever follows. *)
Definition begins_with_integer (s : string) : Prop :=
  exists ws sign d rest,
    s = ws +:+ sign +:+ String d rest /\
    blank ws = true /\ sign ∈ [""; "+"; "-"] /\ is_digit d = true.

Fixpoint all_digits (s : string) : bool :=
  match s with
  | EmptyString => true
  | String c s' => is_digit c && all_digits s'
  end.


End Jsonpts.

(** ** The platform the client runs on

    The built-ins the source imports ([undici]'s [fetch], [node:crypto],
    [JSON.parse], [Buffer]'s base64) are outside the repository; the client
    is verified for every implementation of them. *)

Record HttpRequest : Type := {
  req_url : string;
  req_headers : list (string * string);
  req_body : JsonValue;
  req_timeoutMs : Z;
  (** the [Agent] with [rejectUnauthorized: false] is attached *)
  req_insecure : bool
}.

Record HttpResponse : Type := {
  status : Z;
  headers : Headers;
  text : string
}.

(** The error [fetch] rejects with, as far as [postJson] inspects it. *)
Record FetchError : Type := {
  err_name : option string;
  err_code : option string;
  err_message : option string;
  cause_code : option string;
  cause_message : option string
}.

Inductive FetchOutcome : Type :=
  | Rejects (err : FetchError)
  | Resolves (res : HttpResponse).

Class Runtime : Type := {
  World : Type;
  fetch : HttpRequest -> World -> FetchOutcome * World;
  randomHex : nat -> World -> string * World;
  md5 : string -> string;
  sha256 : string -> string;
  JSON_parse : string -> option JsonValue;
  base64 : string -> string
}.

(** ** digest.ts: the Digest authenticator *)

Module Digest.

Definition dquote : ascii := ascii_of_nat 34.
Definition quoted (s : string) : string := String dquote (s +:+ String dquote "").

(** A [DigestChallenge] is the object the parser fills key by key. *)
Abbreviation DigestChallenge := (gmap string string).

(** The loop of [splitAuthParams]. *)
Fixpoint splitAuthParams_go (header : string) (out : list string) (cur : string)
    (inQuotes : bool) : list string :=
  match header with
  | EmptyString =>
      if decide (Js.trim cur = "") then out else out ++ [Js.trim cur]
  | String ch rest =>
      let inQuotes := if decide (ch = dquote) then negb inQuotes else inQuotes in
      if bool_decide (ch = ","%char) && negb inQuotes
      then splitAuthParams_go rest (out ++ [Js.trim cur]) "" inQuotes
      else splitAuthParams_go rest out (cur +:+ String ch "") inQuotes
  end.

Definition splitAuthParams (header : string) : list string :=
  splitAuthParams_go header [] "" false.

Fixpoint no_line_terminator (s : string) : bool :=
  match s with
  | EmptyString => true
  | String c s' => negb (Js.is_line_terminator c) && no_line_terminator s'
  end.

(** The match of the regular expression of [parseDigestChallenge] (start,
    any whitespace, the word Digest in any case, at least one whitespace,
    then a group of any characters but line terminators up to the end),
    giving its group 1. The two whitespace runs are matched greedily and no
    shorter run can make the rest match, so the matcher need not backtrack. *)
Definition match_digest_prefix (s : string) : option string :=
  let s1 := Js.trimStart s in
  if decide (Js.toLowerCase (Js.take 6 s1) = "digest") then
    match Js.drop 6 s1 with
    | String c s2 =>
        if Js.is_space c then
          let rest := Js.trimStart s2 in
          if no_line_terminator rest then Some rest else None
        else None
    | EmptyString => None
    end
  else None.

(** The body of the loop over the parts: [(params as any)[k] = v] stores
    under any key, the six fields of the type being the ones read later.
    The one key that stores nothing is [__proto__]: on an object literal the
    assignment runs the inherited setter, which drops a string. *)
Definition parse_param (params : DigestChallenge) (part : string) : DigestChallenge :=
  match Js.indexOf part "="%char with
  | None | Some O => params
  | Some eq =>
      let k := Js.trim (Js.take eq part) in
      let v := Js.trim (Js.drop (S eq) part) in
      let v := if Js.startsWith v (String dquote "") && Js.endsWith v (String dquote "")
               then Js.slice_1_m1 v else v in
      if decide (k = "__proto__") then params else <[k := v]> params
  end.

Definition parseDigestChallenge (wwwAuthenticate : string) : Result DigestChallenge :=
  match match_digest_prefix wwwAuthenticate with
  | None => Throw NotDigestChallenge
  | Some rest => Ok (foldl parse_param ∅ (splitAuthParams rest))
  end.

(** Truthiness of an optional string: [undefined] and [""] are falsy. *)
Definition truthy (s : option string) : bool :=
  match s with
  | None | Some EmptyString => false
  | Some _ => true
  end.

Definition pickQop (qop : option string) : option string :=
  if truthy qop then
    let parts := filter (fun s => s ≠ "") (Js.trim <$> Js.split "," (default "" qop)) in
    if bool_decide ("auth" ∈ parts) then Some "auth" else head parts
  else None.

Record DigestParams : Type := {
  username : string;
  password : string;
  method : string;
  uri : string;
  challenge : DigestChallenge;
  nc : Z
}.

Section build.
Context `{Runtime}.

Definition hash (algorithm data : string) : string :=
  let norm := Js.toUpperCase algorithm in
  if bool_decide (norm = "MD5") || bool_decide (norm = "MD5-SESS") then md5 data
  else if bool_decide (norm = "SHA-256") || bool_decide (norm = "SHA-256-SESS") then sha256 data
  else md5 data.

(** The bindings of [buildDigestAuthorization], in the order of the source;
    [cnonce] is the value [randomHex(16)] returned. *)
Context (params : DigestParams) (cnonce : string).

Definition realm : string := default "" (challenge params !! "realm").
Definition nonce : string := default "" (challenge params !! "nonce").
Definition algorithmRaw : string := default "MD5" (challenge params !! "algorithm").
Definition algorithm : string := Js.toUpperCase algorithmRaw.
Definition qop : option string := pickQop (challenge params !! "qop").
Definition opaque : option string := challenge params !! "opaque".
Definition ncStr : string := Js.padStart 8 "0" (Js.toString16 (nc params)).

Definition ha1Base : string :=
  username params +:+ ":" +:+ realm +:+ ":" +:+ password params.

Definition ha1 : string :=
  let ha1 := hash algorithm ha1Base in
  if Js.endsWith algorithm "-SESS"
  then hash algorithm (ha1 +:+ ":" +:+ nonce +:+ ":" +:+ cnonce)
  else ha1.

Definition ha2 : string := hash algorithm (method params +:+ ":" +:+ uri params).

Definition response : string :=
  if truthy qop
  then hash algorithm (ha1 +:+ ":" +:+ nonce +:+ ":" +:+ ncStr +:+ ":" +:+ cnonce +:+ ":" +:+
                       default "" qop +:+ ":" +:+ ha2)
  else hash algorithm (ha1 +:+ ":" +:+ nonce +:+ ":" +:+ ha2).

Definition parts : list string :=
  ["username=" +:+ quoted (username params);
   "realm=" +:+ quoted realm;
   "nonce=" +:+ quoted nonce;
   "uri=" +:+ quoted (uri params);
   "response=" +:+ quoted response] ++
  (if truthy opaque then ["opaque=" +:+ quoted (default "" opaque)] else []) ++
  (if truthy (challenge params !! "charset")
   then ["charset=" +:+ quoted (default "" (challenge params !! "charset"))] else []) ++
  (if truthy (challenge params !! "algorithm")
   then ["algorithm=" +:+ default "" (challenge params !! "algorithm")] else []) ++
  (if truthy qop
   then ["qop=" +:+ default "" qop; "nc=" +:+ ncStr; "cnonce=" +:+ quoted cnonce]
   else []).

Definition buildDigestAuthorization : string :=
  "Digest " +:+ Js.join ", " parts.

End build.

(** The name of a header field [name=value]. *)
Definition field_name (part : string) : string :=
  match Js.indexOf part "="%char with
  | Some i => Js.take i part
  | None => part
  end.

(** *** Vocabulary for stating the authenticator's properties *)

Fixpoint all_space (s : string) : bool :=
  match s with
  | EmptyString => true
  | String c s' => Js.is_space c && all_space s'
  end.

(** The shape of a header the parser takes for a Digest challenge:
    whitespace, the word Digest in any case, at least one whitespace, and a
    remainder on one line. *)
Definition digest_shaped (h : string) : Prop :=
  exists ws1 tok ws2 rest,
    h = ws1 +:+ tok +:+ ws2 +:+ rest /\
    all_space ws1 = true /\
    Js.toLowerCase tok = "digest" /\
    ws2 ≠ "" /\ all_space ws2 = true /\
    no_line_terminator rest = true.

Fixpoint all_chars (P : ascii -> bool) (s : string) : bool :=
  match s with
  | EmptyString => true
  | String c s' => P c && all_chars P s'
  end.

(** A character of an attribute name: no whitespace, comma, equals sign or
    double quote. *)
Definition token_char (c : ascii) : bool :=
  negb (Js.is_space c) && negb (bool_decide (c = ","%char)) &&
  negb (bool_decide (c = "="%char)) && negb (bool_decide (c = dquote)).

(** A character of a quoted attribute value: no double quote, no line
    break. *)
Definition value_char (c : ascii) : bool :=
  negb (bool_decide (c = dquote)) && negb (Js.is_line_terminator c).

Definition well_formed_attr (kv : string * string) : Prop :=
  kv.1 ≠ "" /\ all_chars token_char kv.1 = true /\ all_chars value_char kv.2 = true.

(** An attribute written in ASCII. *)
Definition ascii_attr (kv : string * string) : Prop :=
  Js.all_ascii kv.1 = true /\ Js.all_ascii kv.2 = true.

(** A challenge header as a server writes it: [name="value"] attributes,
    separated by a comma and a space. *)
Definition render_attr (kv : string * string) : string :=
  kv.1 +:+ "=" +:+ quoted kv.2.

Definition render_challenge (kvs : list (string * string)) : string :=
  "Digest " +:+ Js.join ", " (render_attr <$> kvs).

(** The attributes an object literal keeps when they are assigned to it
    in turn: all but those named [__proto__]. *)
Definition kept (kvs : list (string * string)) : list (string * string) :=
  filter (fun kv => kv.1 ≠ "__proto__") kvs.

Definition is_lower_hex (c : ascii) : bool :=
  let n := nat_of_ascii c in
  ((48 <=? n) && (n <=? 57) || (97 <=? n) && (n <=? 102))%nat.

Fixpoint all_lower_hex (s : string) : bool :=
  match s with
  | EmptyString => true
  | String c s' => is_lower_hex c && all_lower_hex s'
  end.

Definition hex_digit_value (c : ascii) : N :=
  let n := N_of_ascii c in
  if (n <? 58)%N then (n - 48)%N else (n - 87)%N.

(** The number a string of hex digits denotes. *)
Fixpoint hex_value_go (s : string) (acc : N) : N :=
  match s with
  | EmptyString => acc
  | String c s' => hex_value_go s' (16 * acc + hex_digit_value c)
  end.

Definition hex_value (s : string) : N := hex_value_go s 0.

End Digest.

(** ** Pts2Client.ts: transport and protocol client *)

Module Client.
Import Config.

Section client.
Context `{Runtime}.

(** The mutable state of a [Pts2Client] ([digestNc]) together with the
    world it talks to; [trace] is a ghost field recording every request
    handed to [fetch], oldest first. *)
Record ClientState : Type := {
  digestNc : Z;
  world : World;
  trace : list HttpRequest
}.

(** A fresh client: [private digestNc = 0]. *)
Definition new_client (w : World) : ClientState :=
  {| digestNc := 0; world := w; trace := [] |}.

(** An [async] method: it reads and writes the client, and resolves or
    rejects. *)
Definition ClientM (A : Type) : Type := ClientState -> Result A * ClientState.

Definition ret {A} (a : A) : ClientM A := fun st => (Ok a, st).
Definition throw {A} (e : Thrown) : ClientM A := fun st => (Throw e, st).
Definition bind {A B} (m : ClientM A) (k : A -> ClientM B) : ClientM B :=
  fun st =>
    match m st with
    | (Ok a, st') => k a st'
    | (Throw e, st') => (Throw e, st')
    end.
Definition lift {A} (r : Result A) : ClientM A := fun st => (r, st).

Local Notation "'let*' x := m 'in' k" := (bind m (fun x => k))
  (at level 10, x name, m at level 100, k at level 200, only parsing).

(** [new Agent(...)] is built exactly when the scheme is https and
    verification is switched off. *)
Definition dispatcher (cfg : Pts2Config) : bool :=
  match security cfg with
  | Https => tlsInsecure cfg
  | Http => false
  end.

Definition security_name (s : Security) : string :=
  match s with
  | Http => "http"
  | Https => "https"
  end.

Definition baseUrl (cfg : Pts2Config) : string :=
  let port := match security cfg with
              | Https => httpsPort cfg
              | Http => httpPort cfg
              end in
  security_name (security cfg) +:+ "://" +:+ host cfg +:+ ":" +:+
  Js.num_to_string port +:+ "/jsonPTS".

Definition requestPathname : string := "/jsonPTS".

Definition basicAuthHeader (cfg : Pts2Config) : string :=
  "Basic " +:+ base64 (login cfg +:+ ":" +:+ password cfg).

(** [headers.get(name)]: the values under the lower-cased name, joined. *)
Definition headers_get (h : Headers) (name : string) : option string :=
  match filter (fun kv => kv.1 = Js.toLowerCase name) h with
  | [] => None
  | found => Some (Js.join ", " (snd <$> found))
  end.

(** The [catch] around [fetch]. *)
Definition classify (url : string) (err : FetchError) : Thrown :=
  let code := default "" (from_option Some (err_code err) (cause_code err)) in
  let isTimeout :=
    bool_decide (err_name err = Some "AbortError") ||
    bool_decide (code = "UND_ERR_ABORTED") ||
    bool_decide (code = "ETIMEDOUT") ||
    bool_decide (code = "ESOCKETTIMEDOUT") in
  let kind := if isTimeout then Timeout else Network in
  let causeMsg :=
    default "fetch failed" (from_option Some (err_message err) (cause_message err)) in
  let codeVal := if decide (code = "") then None else Some code in
  Pts2TransportError kind url codeVal
    ("PTS2 " +:+ (if isTimeout then "timeout" else "network") +:+
     " error calling " +:+ url +:+ ": " +:+ causeMsg).

(** The [init] object handed to [fetch]. *)
Definition fetch_init (cfg : Pts2Config) (body : JsonValue)
    (extraHeaders : list (string * string)) : HttpRequest :=
  {| req_url := baseUrl cfg;
     req_headers := ("content-type", "application/json") :: extraHeaders;
     req_body := body;
     req_timeoutMs := timeoutMs cfg;
     req_insecure := dispatcher cfg |}.

(** What [postJson] makes of the outcome of [fetch]. *)
Definition respond (url : string) (outcome : FetchOutcome) : Result Raw :=
  match outcome with
  | Rejects err => Throw (classify url err)
  | Resolves res =>
      if decide (status res = 401) then Ok (RawUnauthorized (headers res))
      else if negb ((200 <=? status res) && (status res <=? 299))%Z
      then Throw (HttpStatus (status res) (text res))
      else
        match headers_get (headers res) "content-type" with
        | Some ct =>
            if Js.includes ct "application/json" then
              match JSON_parse (text res) with
              | Some v => Ok (RawJson v)
              | None => Throw JsonSyntaxError
              end
            else Throw (NonJson (Js.take 200 (text res)))
        | None => Throw (NonJson (Js.take 200 (text res)))
        end
  end.

Definition postJson (cfg : Pts2Config) (body : JsonValue)
    (extraHeaders : list (string * string)) : ClientM Raw :=
  fun st =>
    let init := fetch_init cfg body extraHeaders in
    let '(outcome, w) := fetch init (world st) in
    (respond (baseUrl cfg) outcome,
     {| digestNc := digestNc st; world := w; trace := trace st ++ [init] |}).

(** [(first as any)?.__unauthorized]: set on the sentinel, and read as a
    property of whatever JSON body came back otherwise. *)
Definition unauthorized_flag (first : Raw) : bool :=
  match first with
  | RawUnauthorized _ => true
  | RawJson (JObj fields) => from_option js_truthy false (obj_get "__unauthorized" fields)
  | RawJson _ => false
  end.

(** [hdrs.get("www-authenticate")]: only the sentinel carries a [Headers]
    object; a JSON body has no callable [get]. *)
Definition challenge_header (first : Raw) : Result (option string) :=
  match first with
  | RawUnauthorized hdrs => Ok (headers_get hdrs "www-authenticate")
  | RawJson _ => Throw TypeError
  end.

Definition incr_digestNc : ClientM Z :=
  fun st =>
    let n := digestNc st + 1 in
    (Ok n, {| digestNc := n; world := world st; trace := trace st |}).

Definition draw_randomHex (bytes : nat) : ClientM string :=
  fun st =>
    let '(r, w) := randomHex bytes (world st) in
    (Ok r, {| digestNc := digestNc st; world := w; trace := trace st |}).

Definition postWithAuth (cfg : Pts2Config) (body : JsonValue) : ClientM Raw :=
  match auth cfg with
  | Basic => postJson cfg body [("Authorization", basicAuthHeader cfg)]
  | Digest =>
      let* first := postJson cfg body [] in
      if unauthorized_flag first then
        let* www := lift (challenge_header first) in
        if Digest.truthy www then
          let* challenge := lift (Digest.parseDigestChallenge (default "" www)) in
          let* nc := incr_digestNc in
          let* cnonce := draw_randomHex 16 in
          let authz := Digest.buildDigestAuthorization
                         {| Digest.username := login cfg;
                            Digest.password := password cfg;
                            Digest.method := "POST";
                            Digest.uri := requestPathname;
                            Digest.challenge := challenge;
                            Digest.nc := nc |} cnonce in
          postJson cfg body [("Authorization", authz)]
        else throw UnauthorizedWithoutChallenge
      else ret first
  end.

Definition sendJsonPtsEnvelope (cfg : Pts2Config) (envelope : JsonValue) : ClientM Raw :=
  postWithAuth cfg envelope.

(** The loop [for (let i = 0; i < parsed.length; i++)] of [execute], from
    index [i] on. *)
Fixpoint check_ids (i : nat) (parsed : list JsonPtsPacketResponse) : Result unit :=
  match parsed with
  | [] => Ok tt
  | p :: rest =>
      if decide (id p = Z.of_nat i) then check_ids (S i) rest
      else Throw (PacketIdMismatch i (id p))
  end.

(** The part of [execute] after [parseEnvelope]. *)
Definition correlate (packets : list JsonPtsPacketRequest)
    (parsed : list JsonPtsPacketResponse) : Result (list JsonPtsPacketResponse) :=
  if decide (length parsed = length packets) then
    _ ← check_ids 0 parsed;
    match List.find error parsed with
    | Some firstError => Throw (JsonPtsPacketError firstError)
    | None => Ok parsed
    end
  else Throw (PacketCountMismatch (length packets) (length parsed)).

Definition execute (cfg : Pts2Config) (packets : list JsonPtsPacketRequest)
  : ClientM (list JsonPtsPacketResponse) :=
  let envelope := Jsonpts.buildEnvelope packets in
  let* raw := postWithAuth cfg envelope in
  let* parsed := lift (Jsonpts.parseEnvelope raw) in
  lift (correlate packets parsed).

Definition simple (t : string) : JsonPtsPacketRequest :=
  {| req_type := t; req_data := None |}.

Definition loadConfiguration (cfg : Pts2Config) : ClientM (list JsonPtsPacketResponse) :=
  execute cfg
    [simple "GetSystemDecimalDigits"; simple "GetMeasurementUnits";
     simple "GetPumpsConfiguration"; simple "GetFuelGradesConfiguration";
     simple "GetPumpNozzlesConfiguration"; simple "GetProbesConfiguration";
     simple "GetUsersConfiguration"; simple "GetConfigurationIdentifier"].

(** The [data] object [setDateTime] sends. *)
Definition setDateTime_data (dateTime : string) (utcOffset : option Z)
    (autoSynchronize : option bool) : JsonValue :=
  JObj [("DateTime", JStr dateTime);
        ("UTCOffset", JNum (default 0 utcOffset));
        ("AutoSynchronize", JBool (default false autoSynchronize))].

Definition setDateTime (cfg : Pts2Config) (dateTime : string) (utcOffset : option Z)
    (autoSynchronize : option bool) : ClientM bool :=
  let* parsed := execute cfg
              [{| req_type := "SetDateTime";
                  req_data := Some (setDateTime_data dateTime utcOffset autoSynchronize) |}] in
  match parsed with
  | pkt :: _ => ret (negb (error pkt))
  | [] => throw TypeError
  end.





Definition reportGetPumpTransactions (cfg : Pts2Config) (pump : Z) (from to : string)
  : ClientM (list JsonValue) :=
  let* parsed := execute cfg
              [{| req_type := "ReportGetPumpTransactions";
                  req_data := Some (JObj [("Pump", JNum pump);
                                          ("DateTimeStart", JStr from);
                                          ("DateTimeEnd", JStr to)]) |}] in
  match parsed with
  | pkt :: _ =>
      match data pkt with
      | Some (JArr rows) => ret rows
      | _ => ret []
      end
  | [] => throw TypeError
  end.

(** *** Vocabulary for stating the client's properties *)

(** The headers of a 401 answer. *)
Definition answered_401 (o : FetchOutcome) : option Headers :=
  match o with
  | Resolves res => if decide (status res = 401) then Some (headers res) else None
  | Rejects _ => None
  end.

(** The Digest challenge of a 401 answer: its [WWW-Authenticate] header is
    there, is not empty and parses. *)
Definition digest_challenge_of (o : FetchOutcome) : option Digest.DigestChallenge :=
  match answered_401 o with
  | Some hdrs =>
      match headers_get hdrs "www-authenticate" with
      | Some www =>
          if Digest.truthy (Some www) then
            match Digest.parseDigestChallenge www with
            | Ok ch => Some ch
            | Throw _ => None
            end
          else None
      | None => None
      end
  | None => None
  end.

(** The argument [postWithAuth] hands to [buildDigestAuthorization]. *)
Definition digest_params (cfg : Pts2Config) (ch : Digest.DigestChallenge) (nc : Z)
  : Digest.DigestParams :=
  {| Digest.username := login cfg;
     Digest.password := password cfg;
     Digest.method := "POST";
     Digest.uri := requestPathname;
     Digest.challenge := ch;
     Digest.nc := nc |}.

(** The [Authorization] header of a request, if it carries one. *)
Definition authorization_of (r : HttpRequest) : option string :=
  snd <$> List.find (fun kv => bool_decide (kv.1 = "Authorization")) (req_headers r).

End client.
End Client.

(** ** server/index.ts: how the REST layer answers a failure *)

Module Server.

(** The status [handleError] sets. Everything the client throws is an
    [Error]; three classes are told apart. *)
Definition handleError_status (err : Thrown) : Z :=
  match err with
  | JsonPtsPacketError _ => 502
  | Pts2TransportError Timeout _ _ _ => 504
  | Pts2TransportError Network _ _ _ => 502
  | ZodError _ => 400
  | _ => 500
  end.

(** The [error] tag of the JSON body. *)
Definition handleError_tag (err : Thrown) : string :=
  match err with
  | JsonPtsPacketError _ => "PTS_PACKET_ERROR"
  | Pts2TransportError _ _ _ _ => "PTS_TRANSPORT_ERROR"
  | ZodError _ => "BAD_REQUEST"
  | _ => "INTERNAL_ERROR"
  end.

End Server.

(** ** A scripted platform

    A transport that answers from a script and a crypto that only tags its
    input: enough to run the client on concrete exchanges. *)

Module Mock.

Record MockWorld : Type := {
  script : list FetchOutcome;
  cnonces : list string
}.

Definition refused : FetchError :=
  {| err_name := Some "TypeError"; err_code := None; err_message := Some "fetch failed";
     cause_code := Some "ECONNREFUSED"; cause_message := Some "connect ECONNREFUSED" |}.

Definition mock_fetch (_ : HttpRequest) (w : MockWorld) : FetchOutcome * MockWorld :=
  match script w with
  | [] => (Rejects refused, w)
  | o :: rest => (o, {| script := rest; cnonces := cnonces w |})
  end.

Definition mock_randomHex (_ : nat) (w : MockWorld) : string * MockWorld :=
  match cnonces w with
  | [] => ("00", w)
  | c :: rest => (c, {| script := script w; cnonces := rest |})
  end.

(** Bodies are looked up in a table instead of being parsed. *)
Definition runtime (bodies : list (string * JsonValue)) : Runtime :=
  {| World := MockWorld;
     fetch := mock_fetch;
     randomHex := mock_randomHex;
     md5 := fun s => "md5(" +:+ s +:+ ")";
     sha256 := fun s => "sha256(" +:+ s +:+ ")";
     JSON_parse := fun s => obj_get s bodies;
     base64 := fun s => "b64(" +:+ s +:+ ")" |}.

Definition json_reply (body : string) : FetchOutcome :=
  Resolves {| status := 200;
              headers := [("content-type", "application/json; charset=utf-8")];
              text := body |}.

Definition unauthorized (hdrs : Headers) : FetchOutcome :=
  Resolves {| status := 401; headers := hdrs; text := "" |}.

Definition digest_cfg : Config.Pts2Config :=
  {| Config.host := "pts.local"; Config.security := Config.Https;
     Config.httpPort := 80; Config.httpsPort := 443;
     Config.auth := Config.Digest; Config.login := "admin"; Config.password := "secret";
     Config.timeoutMs := 15000; Config.tlsInsecure := true |}.

Definition basic_cfg : Config.Pts2Config :=
  {| Config.host := "pts.local"; Config.security := Config.Http;
     Config.httpPort := 8080; Config.httpsPort := 443;
     Config.auth := Config.Basic; Config.login := "admin"; Config.password := "secret";
     Config.timeoutMs := 5000; Config.tlsInsecure := true |}.

(** Canned bodies and scripts. *)
Definition bodies : list (string * JsonValue) :=
  [("datetime",
    Jsonpts.envelope_of
      [JObj [("Id", JNum 0); ("Type", JStr "DateTime");
             ("Data", JObj [("DateTime", JStr "2026-02-12T08:30:00")])]]);
   ("confirmation",
    Jsonpts.envelope_of [JObj [("Id", JNum 0); ("Type", JStr "Confirmation")]]);
   ("two",
    Jsonpts.envelope_of [JObj [("Id", JNum 0); ("Type", JStr "DateTime")];
                         JObj [("Id", JNum 1); ("Type", JStr "DateTime")]])].

Definition rt : Runtime := runtime bodies.

Definition digest_challenge : Headers :=
  [("www-authenticate", "Digest realm=PTS, nonce=5f2a9c, qop=auth, algorithm=MD5")].

Definition basic_challenge : Headers :=
  [("www-authenticate", "Basic realm=PTS")].

Definition world_of (outcomes : list FetchOutcome) : MockWorld :=
  {| script := outcomes; cnonces := ["0a4f113b"] |}.

Definition fresh (outcomes : list FetchOutcome) : Client.ClientState (H := rt) :=
  Client.new_client (H := rt) (world_of outcomes).

(** A device that answers the configuration batch. *)
Definition configuration_reply : JsonValue :=
  Jsonpts.envelope_of
    (imap (fun i t => JObj [("Id", JNum (Z.of_nat i)); ("Type", JStr t)])
       ["SystemDecimalDigits"; "MeasurementUnits"; "PumpsConfiguration";
        "FuelGradesConfiguration"; "PumpNozzlesConfiguration"; "ProbesConfiguration";
        "UsersConfiguration"; "ConfigurationIdentifier"]).

Definition rt_configuration : Runtime := runtime [("configuration", configuration_reply)].

End Mock.

(** * Properties *)

(** ** Configuration loading *)

Section config_facts.
Import Config.

Lemma schema_parse_Ok c cfg :
  schema_parse c = Ok cfg ->
  schema_issues c = [] /\
  host cfg = raw_host c /\ login cfg = raw_login c /\ password cfg = raw_password c /\
  tlsInsecure cfg = raw_tlsInsecure c.
Proof.
  unfold schema_parse.
  destruct (schema_issues c) as [|i issues]; [|discriminate].
  destruct (parse_security _); [|discriminate].
  destruct (parse_auth _); [|discriminate].
  intros [= <-]. done.
Qed.

Lemma schema_parse_Throw c :
  schema_issues c ≠ [] -> schema_parse c = Throw (ZodError (schema_issues c)).
Proof.
  unfold schema_parse. destruct (schema_issues c); [done|].
  by destruct (parse_security (raw_security c)), (parse_auth (raw_auth c)).
Qed.

Lemma truthy_not_falsy s : s ∈ truthy_words -> s ∉ falsy_words.
Proof.
  unfold truthy_words, falsy_words. rewrite !elem_of_cons, !elem_of_nil.
  intros Hs Hf. destruct Hs as [->|[->|[->|[->|[->|[]]]]]];
    repeat (destruct Hf as [Hf|Hf]; [discriminate|]); done.
Qed.

(** [parseBool] with fallback [true] gives [false] exactly on a falsy word. *)
Lemma parseBool_true_fallback v :
  parseBool v true = false <->
  exists s, v = Some s /\ Js.toLowerCase (Js.trim s) ∈ falsy_words.
Proof.
  unfold parseBool. destruct v as [s|].
  - case_bool_decide as Ht.
    + split; [done|]. intros (s' & [= <-] & Hf). by apply truthy_not_falsy in Ht.
    + case_bool_decide as Hf.
      * split; [eauto|done].
      * split; [done|]. by intros (s' & [= <-] & ?).
  - split; [done|]. by intros (? & ? & _).
Qed.

End config_facts.

Section config_claims.
Import Config.

(** C1, as the code has it: the secure setting is the one that must be
    spelled out. Whenever loading succeeds, [tlsInsecure] is [false] exactly
    when [PTS2_TLS_INSECURE] is set to a falsy word ([0], [false], [no], [n],
    [off], after trimming and lower-casing); when the variable is absent the
    resulting config has [tlsInsecure = true], verification switched off. *)
Theorem tlsInsecure_false_only_when_set (env : gmap string string) cfg :
  loadPts2ConfigFromEnv env = Ok cfg ->
  (tlsInsecure cfg = false <->
     exists v, env !! "PTS2_TLS_INSECURE" = Some v /\
               Js.toLowerCase (Js.trim v) ∈ falsy_words) /\
  (env !! "PTS2_TLS_INSECURE" = None -> tlsInsecure cfg = true).
Proof.
  intros Hload. apply schema_parse_Ok in Hload as (_ & _ & _ & _ & ->).
  cbn [raw_of_env raw_tlsInsecure]. split.
  - apply parseBool_true_fallback.
  - by intros ->.
Qed.

Lemma tlsInsecure_false_only_when_set_witness :
  let env : gmap string string :=
    {[ "PTS2_HOST" := "pts.local"; "PTS2_TLS_INSECURE" := " Off " ]} in
  exists cfg,
    loadPts2ConfigFromEnv env = Ok cfg /\
    (tlsInsecure cfg = false <->
       exists v, env !! "PTS2_TLS_INSECURE" = Some v /\
                 Js.toLowerCase (Js.trim v) ∈ falsy_words).
Proof.
  intros env.
  eexists. split; [vm_compute; reflexivity|].
  eapply proj1, (tlsInsecure_false_only_when_set env). vm_compute; reflexivity.
Defined.

(** C1, as stated, fails: with [PTS2_TLS_INSECURE] absent the loaded config
    has certificate verification switched off. *)
Lemma tlsInsecure_absent_counterexample :
  let env : gmap string string := {[ "PTS2_HOST" := "pts.local" ]} in
  env !! "PTS2_TLS_INSECURE" = None /\
  exists cfg, loadPts2ConfigFromEnv env = Ok cfg /\ tlsInsecure cfg = true.
Proof.
  split; [reflexivity|]. eexists. split; vm_compute; reflexivity.
Qed.

(** C9, as the code has it: the only field required to be non-empty is
    [host]. For every environment where the host is absent or the empty
    string, loading fails with a schema error naming [host]. The login and
    the password are not required: for every environment, whether loading
    succeeds is the same whatever [PTS2_LOGIN] and [PTS2_PASSWORD] are, set
    to any string or left out, and a configuration that loads carries them
    as given, the empty string standing for an absent one. *)
Theorem load_fails_on_empty_host (env : gmap string string) :
  (default "" (env !! "PTS2_HOST") = "" ->
   exists issues, loadPts2ConfigFromEnv env = Throw (ZodError issues) /\ "host" ∈ issues) /\
  (forall env' : gmap string string,
     (forall k, k ≠ "PTS2_LOGIN" -> k ≠ "PTS2_PASSWORD" -> env' !! k = env !! k) ->
     is_ok (loadPts2ConfigFromEnv env') = is_ok (loadPts2ConfigFromEnv env)) /\
  (forall cfg, loadPts2ConfigFromEnv env = Ok cfg ->
     login cfg = default "" (env !! "PTS2_LOGIN") /\
     password cfg = default "" (env !! "PTS2_PASSWORD")).
Proof.
  split; [|split].
  - intros Hhost. exists (schema_issues (raw_of_env env)).
    assert (Hin : "host" ∈ schema_issues (raw_of_env env)).
    { unfold schema_issues. cbn [raw_of_env raw_host]. rewrite Hhost. cbn.
      apply elem_of_cons. by left. }
    split; [|done]. apply schema_parse_Throw. intros E. rewrite E in Hin.
    by apply elem_of_nil in Hin.
  - intros env' Hsame. unfold loadPts2ConfigFromEnv.
    set (c := raw_of_env env).
    set (c' := raw_of_env env').
    assert (Hi : schema_issues c' = schema_issues c).
    { unfold c', c, raw_of_env, schema_issues. cbn.
      by rewrite !Hsame by done. }
    assert (Hs : raw_security c' = raw_security c).
    { unfold c', c, raw_of_env. cbn. by rewrite !Hsame by done. }
    assert (Ha : raw_auth c' = raw_auth c).
    { unfold c', c, raw_of_env. cbn. by rewrite !Hsame by done. }
    unfold schema_parse. rewrite Hi, Hs, Ha.
    by destruct (schema_issues c), (parse_security (raw_security c)),
      (parse_auth (raw_auth c)).
  - intros cfg Hload. unfold loadPts2ConfigFromEnv, schema_parse in Hload.
    destruct (schema_issues (raw_of_env env)),
      (parse_security (raw_security (raw_of_env env))),
      (parse_auth (raw_auth (raw_of_env env))); try discriminate Hload.
    by injection Hload as <-.
Qed.

Lemma load_fails_on_empty_host_witness :
  exists issues,
    loadPts2ConfigFromEnv {[ "PTS2_HOST" := ""; "PTS2_LOGIN" := "admin" ]}
    = Throw (ZodError issues) /\ "host" ∈ issues.
Proof.
  apply (proj1 (load_fails_on_empty_host {[ "PTS2_HOST" := ""; "PTS2_LOGIN" := "admin" ]})).
  vm_compute; reflexivity.
Defined.

(** C9, as stated, fails: an environment with an empty login and an empty
    password loads. *)
Lemma empty_login_password_counterexample :
  let env : gmap string string :=
    {[ "PTS2_HOST" := "pts.local"; "PTS2_LOGIN" := ""; "PTS2_PASSWORD" := "" ]} in
  exists cfg, loadPts2ConfigFromEnv env = Ok cfg /\ login cfg = "" /\ password cfg = "".
Proof.
  eexists. repeat split; vm_compute; reflexivity.
Qed.

End config_claims.

(** ** The envelope codec *)

Section result_facts.
Context {A B : Type} (f : A -> Result B).

Lemma mapM_Result_Ok l k :
  mapM f l = Ok k <-> Forall2 (fun x y => f x = Ok y) l k.
Proof.
  revert k. induction l as [|x l IH]; intros k; cbn.
  - split; [intros [= <-]; constructor | by inversion 1].
  - destruct (f x) as [y|e] eqn:Hx; cbn.
    + destruct (mapM f l) as [k'|e] eqn:Hl; cbn.
      * split.
        -- intros [= <-]. constructor; [done|]. by apply IH.
        -- inversion 1 as [|? y' ? k'' Hy Hk]; subst.
           apply IH in Hk. rewrite Hx in Hy. by injection Hy as ->; injection Hk as ->.
      * split; [done|]. inversion 1 as [|? y' ? k'' Hy Hk]; subst.
        by apply IH in Hk.
    + split; [done|]. inversion 1; congruence.
Qed.

Lemma mapM_Result_Throw l :
  Exists (fun x => is_ok (f x) = false) l -> is_ok (mapM f l) = false.
Proof.
  induction 1 as [x l Hx | x l _ IH]; cbn.
  - by destruct (f x).
  - destruct (f x); [|done]. cbn. by destruct (mapM f l).
Qed.

End result_facts.

Section codec_facts.
Import Jsonpts.

Local Instance id_le_trans : Transitive id_le.
Proof. unfold id_le. intros a b c. lia. Qed.

Lemma insert_by_id_Permutation x l : insert_by_id x l ≡ₚ x :: l.
Proof.
  induction l as [|y l IH]; cbn; [done|].
  destruct (id x <=? id y)%Z; [done|]. by rewrite IH, Permutation_swap.
Qed.

Lemma sort_by_id_Permutation l : sort_by_id l ≡ₚ l.
Proof.
  induction l as [|x l IH]; cbn; [done|].
  by rewrite insert_by_id_Permutation, IH.
Qed.

Lemma insert_by_id_Sorted x l : Sorted id_le l -> Sorted id_le (insert_by_id x l).
Proof.
  induction 1 as [|y l Hl IH Hhd]; cbn.
  - by repeat constructor.
  - destruct (id x <=? id y)%Z eqn:Hxy.
    + constructor; [by constructor|]. constructor. unfold id_le. lia.
    + constructor; [done|].
      destruct Hhd as [|z l' Hz]; cbn.
      * constructor. unfold id_le. lia.
      * destruct (id x <=? id z)%Z; constructor; unfold id_le in *; lia.
Qed.

Lemma sort_by_id_Sorted l : Sorted id_le (sort_by_id l).
Proof.
  induction l as [|x l IH]; cbn; [constructor|]. by apply insert_by_id_Sorted.
Qed.

(** A list already in order is left as it is. *)
Lemma sort_by_id_sorted l : Sorted id_le l -> sort_by_id l = l.
Proof.
  unfold sort_by_id. induction 1 as [|x l Hl IH Hhd]; cbn; [done|].
  rewrite IH. destruct Hhd as [|y l' Hy]; cbn; [done|].
  unfold id_le in Hy. by destruct (Z.leb_spec (id x) (id y)); [|lia].
Qed.

(** The sort is stable: the packets of one id keep their relative order. *)
Lemma insert_by_id_filter k x l :
  Sorted id_le l ->
  filter (fun p => id p = k) (insert_by_id x l) = filter (fun p => id p = k) (x :: l).
Proof.
  intros Hl. apply Sorted_StronglySorted in Hl; [|apply _].
  induction Hl as [|y l Hl IH Hall]; cbn; [done|].
  destruct (Z.leb_spec (id x) (id y)) as [Hxy|Hxy]; [done|].
  rewrite (filter_cons _ y (insert_by_id _ _)), IH, !filter_cons.
  repeat case_decide; try done. lia.
Qed.

Lemma sort_by_id_stable k l :
  filter (fun p => id p = k) (sort_by_id l) = filter (fun p => id p = k) l.
Proof.
  induction l as [|x l IH]; [done|].
  change (sort_by_id (x :: l)) with (insert_by_id x (sort_by_id l)).
  rewrite insert_by_id_filter by apply sort_by_id_Sorted.
  by rewrite !filter_cons, IH.
Qed.

Lemma NoDup_fmap_eq {X Y} (g : X -> Y) (l : list X) x y :
  NoDup (g <$> l) -> x ∈ l -> y ∈ l -> g x = g y -> x = y.
Proof.
  induction l as [|z l IH]; cbn; [by rewrite elem_of_nil|].
  rewrite NoDup_cons, !elem_of_cons. intros [Hz Hnd] [->|Hx] [->|Hy] Hg; auto.
  - destruct Hz. rewrite Hg. by apply list_elem_of_fmap_2.
  - destruct Hz. rewrite <- Hg. by apply list_elem_of_fmap_2.
Qed.

(** Two sorted lists with the same packets, of pairwise distinct ids, are
    the same list. *)
Lemma sorted_by_id_unique l1 l2 :
  NoDup (id <$> l1) -> Sorted id_le l1 -> Sorted id_le l2 -> l1 ≡ₚ l2 -> l1 = l2.
Proof.
  intros Hnd H1 H2 Hp. apply (Sorted_unique_strong id_le); [|done..].
  intros x1 x2 Hx1 Hx2 H12 H21. eapply NoDup_fmap_eq; [exact Hnd|done| |].
  - by rewrite Hp.
  - unfold id_le in *. lia.
Qed.

(** When [parseEnvelope] returns, and what. *)
Lemma parseEnvelope_Ok v ps :
  parseEnvelope (RawJson v) = Ok ps <->
  top_field "Protocol" v = Some (JStr "jsonPTS") /\
  exists items pkts,
    top_field "Packets" v = Some (JArr items) /\
    Forall2 (fun x p => decode_item x = Some p) items pkts /\
    ps = sort_by_id pkts.
Proof.
  unfold parseEnvelope, response_schema, top_field.
  destruct v as [| | | | |fields];
    try (split; [discriminate | by intros [[=] _]]).
  destruct (obj_get "Protocol" fields) as [[| | |protocol| |]|];
    try (split; [discriminate | by intros [[=] _]]).
  destruct (obj_get "Packets" fields) as [[| | | |items|]|];
    try (split; [discriminate | by intros (_ & ? & ? & [=] & _)]).
  destruct (mapM as_record items) as [records|] eqn:Hrec; cbn.
  - apply mapM_Some in Hrec. case_decide as Hp; [subst protocol|].
    + destruct (mapM parsePacket records) as [pkts|e] eqn:Hpk; cbn.
      * apply mapM_Result_Ok in Hpk. split.
        -- intros [= <-]. split; [done|]. exists items, pkts. split; [done|].
           split; [|done]. clear -Hrec Hpk. revert pkts Hpk.
           induction Hrec as [|x r items records Hx _ IH]; intros pkts Hpk.
           ++ inversion Hpk. constructor.
           ++ inversion Hpk as [|? p ? pkts' Hp Hps]; subst. constructor; [|by apply IH].
              unfold decode_item. by rewrite Hx, Hp.
        -- intros (_ & items' & pkts' & [= <-] & Hdec & ->). do 2 f_equal.
           clear -Hrec Hpk Hdec. revert pkts pkts' Hpk Hdec.
           induction Hrec as [|x r items records Hx _ IH]; intros pkts pkts' Hpk Hdec.
           ++ inversion Hpk. by inversion Hdec.
           ++ inversion Hpk as [|? p ? pkts1 Hp Hps]; subst.
              inversion Hdec as [|? p' ? pkts2 Hp' Hps']; subst.
              unfold decode_item in Hp'. rewrite Hx, Hp in Hp'. simplify_eq.
              f_equal. by apply IH.
      * split; [done|]. intros (_ & items' & pkts' & [= <-] & Hdec & _). exfalso.
        assert (Hok : mapM parsePacket records = Ok pkts'); [|congruence].
        apply mapM_Result_Ok. clear -Hrec Hdec. revert pkts' Hdec.
        induction Hrec as [|x r items records Hx _ IH]; intros pkts' Hdec.
        -- inversion Hdec. constructor.
        -- inversion Hdec as [|? p' ? pkts2 Hp' Hps']; subst.
           unfold decode_item in Hp'. rewrite Hx in Hp'.
           destruct (parsePacket r) eqn:Hr; [|done]. simplify_eq.
           constructor; [done|]. by apply IH.
    + split; [done|]. intros [[= ?] _]. done.
  - split; [done|]. intros (_ & items' & pkts' & [= <-] & Hdec & _). exfalso.
    apply mapM_None_1, Exists_exists in Hrec as (x & Hx & Hnone).
    apply list_elem_of_lookup in Hx as [i Hi].
    destruct (Forall2_lookup_l _ _ _ _ _ Hdec Hi) as (p & _ & Hp).
    unfold decode_item in Hp. by rewrite Hnone in Hp.
Qed.

Lemma trimStart_blank s : exists ws, s = ws +:+ Js.trimStart s /\ blank ws = true.
Proof.
  induction s as [|x s (ws & Hs & Hws)]; cbn; [by exists ""|].
  destruct (Js.is_space x) eqn:Hx.
  - exists (String x ws). split; [|cbn; by rewrite Hx, Hws].
    change (String x ws +:+ Js.trimStart s) with (String x (ws +:+ Js.trimStart s)).
    by rewrite <- Hs.
  - by exists "".
Qed.

Lemma parse_digits_head s m :
  Js.parse_digits s None = Some m -> exists d rest, s = String d rest /\ is_digit d = true.
Proof.
  destruct s as [|c s]; [done|]. cbn [Js.parse_digits]. unfold Js.digit_val.
  destruct ((48 <=? nat_of_ascii c)%nat && (nat_of_ascii c <=? 57)%nat) eqn:Hc; [|done].
  intros _. by exists c, s.
Qed.

(** What [parseInt] reads after the leading whitespace. *)
Lemma parseInt_sign s :
  (exists r, Js.trimStart s = String "-" r /\
     Js.parseInt s = from_option (fun m => Js.Num (-1 * m)) Js.NaN (Js.parse_digits r None)) \/
  (exists r, Js.trimStart s = String "+" r /\
     Js.parseInt s = from_option (fun m => Js.Num (1 * m)) Js.NaN (Js.parse_digits r None)) \/
  Js.parseInt s
  = from_option (fun m => Js.Num (1 * m)) Js.NaN (Js.parse_digits (Js.trimStart s) None).
Proof.
  unfold Js.parseInt. destruct (Js.trimStart s) as [|c r].
  - right; right. by destruct (Js.parse_digits "" None).
  - destruct c as [[] [] [] [] [] [] [] []];
      first [ left; eexists; split; [reflexivity|];
              by destruct (Js.parse_digits r None)
            | right; left; eexists; split; [reflexivity|];
              by destruct (Js.parse_digits r None)
            | right; right;
              match goal with |- context [Js.parse_digits ?t None] =>
                by destruct (Js.parse_digits t None) end ].
Qed.

(** [parseInt] gives a number only for a string that begins with an
    integer. *)
Lemma parseInt_Num_begins s z : Js.parseInt s = Js.Num z -> begins_with_integer s.
Proof.
  destruct (trimStart_blank s) as (ws & Hs & Hws).
  destruct (parseInt_sign s) as [(r & Hr & ->)|[(r & Hr & ->)| ->]].
  - destruct (Js.parse_digits r None) as [m|] eqn:Hm; [|done]. intros _.
    apply parse_digits_head in Hm as (d & rest & -> & Hd).
    exists ws, "-", d, rest. rewrite Hs at 1. rewrite Hr.
    split; [reflexivity|]. split; [done|]. split; [|done].
    rewrite !elem_of_cons. auto.
  - destruct (Js.parse_digits r None) as [m|] eqn:Hm; [|done]. intros _.
    apply parse_digits_head in Hm as (d & rest & -> & Hd).
    exists ws, "+", d, rest. rewrite Hs at 1. rewrite Hr.
    split; [reflexivity|]. split; [done|]. split; [|done].
    rewrite !elem_of_cons. auto.
  - destruct (Js.parse_digits (Js.trimStart s) None) as [m|] eqn:Hm; [|done]. intros _.
    apply parse_digits_head in Hm as (d & rest & Hr & Hd).
    exists ws, "", d, rest. rewrite Hs at 1. rewrite Hr.
    split; [reflexivity|]. split; [done|]. split; [|done].
    rewrite !elem_of_cons. auto.
Qed.

End codec_facts.

Section codec_claims.
Import Jsonpts.

Lemma decode_item_Some v p :
  decode_item v = Some p ->
  exists fields, v = JObj fields /\ parsePacket fields = Ok p /\ packet_id fields = Js.Num (id p).
Proof.
  unfold decode_item. destruct v as [| | | | |fields]; try done. cbn.
  destruct (parsePacket fields) as [p'|] eqn:Hp; [|done]. intros [= <-].
  exists fields. split; [done|]. split; [done|]. unfold parsePacket in Hp.
  destruct (packet_id fields); [done|]. by injection Hp as <-.
Qed.

(** C5, as the code has it. [parseEnvelope] fails on every JSON input
    whose [Protocol] field is missing or is not exactly the string
    [jsonPTS], whose [Packets] field is not an array, or one of whose
    packets has no readable id: its [Id] is absent, [null], a boolean or an
    object, or more generally is not a number and has a string form, in
    ASCII, that does not begin, after whitespace and at most one sign, with
    a decimal digit. Decoding [{"Protocol":"other","Packets":[]}] fails with the
    protocol-mismatch error. *)
Theorem parseEnvelope_rejects (v : JsonValue) :
  (top_field "Protocol" v ≠ Some (JStr "jsonPTS") \/
   (forall items, top_field "Packets" v ≠ Some (JArr items)) \/
   (exists items fields,
      top_field "Packets" v = Some (JArr items) /\ JObj fields ∈ items /\
      (obj_get "Id" fields = None \/ obj_get "Id" fields = Some JNull \/
       (exists b, obj_get "Id" fields = Some (JBool b)) \/
       (exists o, obj_get "Id" fields = Some (JObj o)) \/
       (exists x, obj_get "Id" fields = Some x /\ (forall n, x ≠ JNum n) /\
                  Js.all_ascii (js_String x) = true /\
                  ~ begins_with_integer (js_String x)))) ->
   exists e, parseEnvelope (RawJson v) = Throw e) /\
  parseEnvelope (RawJson (JObj [("Protocol", JStr "other"); ("Packets", JArr [])]))
  = Throw (ProtocolMismatch "other").
Proof.
  split; [|reflexivity].
  intros Hbad. destruct (parseEnvelope (RawJson v)) as [ps|e] eqn:Hparse; [|by eexists].
  exfalso. apply parseEnvelope_Ok in Hparse as (Hproto & items & pkts & Hpk & Hdec & _).
  destruct Hbad as [Hbad|[Hbad|(items' & fields & Hpk' & Hin & Hid)]].
  - done.
  - by apply (Hbad items).
  - rewrite Hpk in Hpk'. injection Hpk' as <-.
    apply list_elem_of_lookup in Hin as [i Hi].
    destruct (Forall2_lookup_l _ _ _ _ _ Hdec Hi) as (p & _ & Hp).
    apply decode_item_Some in Hp as (fields' & [= <-] & _ & Hnum).
    unfold packet_id in Hnum.
    destruct Hid as [Hid|[Hid|[[b Hid]|[[o Hid]|(x & Hid & Hx & _ & Hno)]]]].
    + by rewrite Hid in Hnum.
    + by rewrite Hid in Hnum.
    + rewrite Hid in Hnum. by destruct b.
    + by rewrite Hid in Hnum.
    + rewrite Hid in Hnum. apply Hno.
      destruct x as [|b|n|s|l|o];
        [by vm_compute in Hnum| |by destruct (Hx n)|..];
        by eapply parseInt_Num_begins.
Qed.

Lemma parseEnvelope_rejects_witness :
  exists e,
    parseEnvelope
      (RawJson (envelope_of [JObj [("Id", JNum 0)]; JObj [("Id", JStr "px12")]]))
    = Throw e.
Proof.
  eapply (proj1 (parseEnvelope_rejects _)).
  right; right. eexists _, [("Id", JStr "px12")].
  split; [reflexivity|]. split.
  { apply elem_of_cons; right. apply elem_of_cons; left. reflexivity. }
  do 4 right. exists (JStr "px12"). split; [reflexivity|]. split; [discriminate|].
  split; [reflexivity|].
  intros (ws & sign & d & rest & Heq & Hws & Hsign & Hd).
  destruct ws as [|c ws].
  - rewrite !elem_of_cons, elem_of_nil in Hsign.
    destruct Hsign as [->|[->|[->|[]]]]; vm_compute in Heq; [|discriminate Heq..].
    injection Heq as <- _. vm_compute in Hd. discriminate Hd.
  - vm_compute in Heq. injection Heq as <- _. vm_compute in Hws. discriminate Hws.
Defined.

(** C5, as stated, fails: an [Id] that is no integer but begins like one
    is accepted, with the leading integer as the packet's id. *)
Lemma parseEnvelope_leading_integer_counterexample :
  exists ps,
    parseEnvelope
      (RawJson (envelope_of [JObj [("Id", JStr "12px")]; JObj [("Id", JStr "1.5")];
                             JObj [("Id", JArr [JNum 3; JNum 4])]]))
    = Ok ps /\
    id <$> ps = [1; 3; 12].
Proof.
  eexists. split; vm_compute; reflexivity.
Qed.

(** C6, as the code has it. Whatever [parseEnvelope] returns is sorted
    ascending by [id]; and two envelopes it accepts whose [Packets] arrays
    are permutations of each other decode to the same sequence provided the
    packet ids are pairwise distinct. *)
Theorem parseEnvelope_sorted_and_order_free (v1 v2 : JsonValue) items1 items2 ps1 ps2 :
  parseEnvelope (RawJson v1) = Ok ps1 ->
  parseEnvelope (RawJson v2) = Ok ps2 ->
  top_field "Packets" v1 = Some (JArr items1) ->
  top_field "Packets" v2 = Some (JArr items2) ->
  Sorted id_le ps1 /\
  (items1 ≡ₚ items2 -> NoDup (id <$> ps1) -> ps1 = ps2).
Proof.
  intros H1 H2 Hi1 Hi2.
  apply parseEnvelope_Ok in H1 as (_ & its1 & pk1 & Hi1' & Hd1 & ->).
  apply parseEnvelope_Ok in H2 as (_ & its2 & pk2 & Hi2' & Hd2 & ->).
  rewrite Hi1 in Hi1'. injection Hi1' as <-. rewrite Hi2 in Hi2'. injection Hi2' as <-.
  split; [apply sort_by_id_Sorted|].
  intros Hperm Hnd. apply sorted_by_id_unique; [done|apply sort_by_id_Sorted..|].
  rewrite !sort_by_id_Permutation.
  assert (Homap : forall its pk,
            Forall2 (fun x p => decode_item x = Some p) its pk -> pk = omap decode_item its).
  { induction 1 as [|x p its pk Hx _ IH]; cbn; [done|]. by rewrite Hx, IH. }
  rewrite (Homap _ _ Hd1), (Homap _ _ Hd2). by rewrite Hperm.
Qed.

Lemma parseEnvelope_sorted_and_order_free_witness :
  let a := JObj [("Id", JNum 0); ("Type", JStr "GetDateTime")] in
  let b := JObj [("Id", JStr "1"); ("Type", JStr "GetPumpsConfiguration")] in
  exists ps,
    parseEnvelope (RawJson (envelope_of [b; a])) = Ok ps /\
    Sorted id_le ps /\
    parseEnvelope (RawJson (envelope_of [a; b])) = Ok ps.
Proof.
  intros a b. eexists. split; [vm_compute; reflexivity|].
  pose proof (parseEnvelope_sorted_and_order_free
                (envelope_of [b; a]) (envelope_of [a; b]) [b; a] [a; b] _ _
                eq_refl eq_refl eq_refl eq_refl) as [Hs Heq].
  split; [exact Hs|]. symmetry. rewrite Heq at 1; [reflexivity| |].
  - apply Permutation_swap.
  - vm_compute. repeat constructor; rewrite ?elem_of_cons, ?elem_of_nil; intuition discriminate.
Defined.

(** C6, as stated, fails: two accepted envelopes whose packets are
    permutations of each other and share an id decode to different
    sequences, each keeping its own arrival order. *)
Lemma parseEnvelope_duplicate_id_counterexample :
  let a := JObj [("Id", JNum 0); ("Type", JStr "first")] in
  let b := JObj [("Id", JNum 0); ("Type", JStr "second")] in
  [a; b] ≡ₚ [b; a] /\
  exists ps1 ps2,
    parseEnvelope (RawJson (envelope_of [a; b])) = Ok ps1 /\
    parseEnvelope (RawJson (envelope_of [b; a])) = Ok ps2 /\
    type <$> ps1 = [Some "first"; Some "second"] /\
    type <$> ps2 = [Some "second"; Some "first"] /\
    ps1 ≠ ps2.
Proof.
  intros a b. split; [apply Permutation_swap|].
  eexists _, _. split; [vm_compute; reflexivity|]. split; [vm_compute; reflexivity|].
  split; [reflexivity|]. split; [reflexivity|]. discriminate.
Qed.

End codec_claims.

Section round_trip.
Import Jsonpts.



Lemma positions_sorted (k : nat) (pkts : list JsonPtsPacketResponse) :
  (forall i p, pkts !! i = Some p -> id p = Z.of_nat (k + i)) -> Sorted id_le pkts.
Proof.
  revert k. induction pkts as [|p pkts IH]; intros k Hpos; [constructor|].
  constructor.
  - apply (IH (S k)). intros i q Hq. rewrite (Hpos (S i) q Hq). f_equal. lia.
  - destruct pkts as [|q pkts]; constructor.
    unfold id_le. rewrite (Hpos 0%nat p eq_refl), (Hpos 1%nat q eq_refl). lia.
Qed.



End round_trip.

(** ** The protocol client *)

Section correlation.
Import Client.

Lemma check_ids_Ok k parsed :
  check_ids k parsed = Ok tt <->
  forall i p, parsed !! i = Some p -> id p = Z.of_nat (k + i).
Proof.
  revert k. induction parsed as [|p parsed IH]; intros k; cbn.
  - split; [|done]. intros _ i q. by rewrite lookup_nil.
  - case_decide as Hid.
    + rewrite IH. split.
      * intros Hrest [|i] q; cbn.
        -- intros [= <-]. by rewrite Nat.add_0_r.
        -- intros Hq. rewrite (Hrest i q Hq). f_equal. lia.
      * intros Hall i q Hq. rewrite (Hall (S i) q Hq). f_equal. lia.
    + split; [done|]. intros Hall. destruct Hid.
      rewrite (Hall 0%nat p eq_refl). f_equal. lia.
Qed.

Lemma check_ids_Throw k parsed e :
  check_ids k parsed = Throw e ->
  exists i p,
    parsed !! i = Some p /\ id p ≠ Z.of_nat (k + i) /\
    e = PacketIdMismatch (k + i) (id p) /\
    forall j q, (j < i)%nat -> parsed !! j = Some q -> id q = Z.of_nat (k + j).
Proof.
  revert k. induction parsed as [|p parsed IH]; intros k; cbn; [done|].
  case_decide as Hid.
  - intros He. destruct (IH _ He) as (i & q & Hq & Hne & -> & Hbefore).
    exists (S i), q. rewrite Nat.add_succ_r. repeat split; try done.
    intros [|j] r Hj; cbn.
    + intros [= <-]. by rewrite Nat.add_0_r.
    + intros Hr. rewrite Nat.add_succ_r. apply Hbefore; [lia|done].
  - intros [= <-]. exists 0%nat, p. rewrite Nat.add_0_r. repeat split; try done. lia.
Qed.

Lemma check_ids_unit k parsed : check_ids k parsed = Ok tt \/ exists e, check_ids k parsed = Throw e.
Proof. destruct (check_ids k parsed) as [[]|e]; eauto. Qed.

Lemma find_error_Some parsed p :
  List.find error parsed = Some p ->
  exists i, parsed !! i = Some p /\ error p = true /\
            forall j q, (j < i)%nat -> parsed !! j = Some q -> error q = false.
Proof.
  induction parsed as [|q parsed IH]; cbn; [done|].
  destruct (error q) eqn:Hq.
  - intros [= <-]. exists 0%nat. repeat split; [done|]. lia.
  - intros Hf. destruct (IH Hf) as (i & Hi & Hp & Hbefore).
    exists (S i). repeat split; [done..|].
    intros [|j] r Hj; cbn; [by intros [= <-]|]. apply Hbefore. lia.
Qed.

Lemma find_error_None parsed :
  List.find error parsed = None <-> forall p, p ∈ parsed -> error p = false.
Proof.
  induction parsed as [|q parsed IH]; cbn.
  - split; [|done]. intros _ p. by rewrite elem_of_nil.
  - destruct (error q) eqn:Hq.
    + split; [done|]. intros Hall. specialize (Hall q). rewrite Hq in Hall.
      discriminate Hall. by left.
    + rewrite IH. split.
      * intros Hall p. rewrite elem_of_cons. intros [->|Hp]; auto.
      * intros Hall p Hp. apply Hall. by right.
Qed.

(** What [correlate] throws or returns, case by case. *)
Lemma correlate_spec packets parsed :
  (length parsed ≠ length packets ->
   correlate packets parsed
   = Throw (PacketCountMismatch (length packets) (length parsed))) /\
  (length parsed = length packets ->
   (forall i p, parsed !! i = Some p -> id p ≠ Z.of_nat i ->
      exists j q, parsed !! j = Some q /\ id q ≠ Z.of_nat j /\
        (forall j' q', (j' < j)%nat -> parsed !! j' = Some q' -> id q' = Z.of_nat j') /\
        correlate packets parsed = Throw (PacketIdMismatch j (id q))) /\
   ((forall i p, parsed !! i = Some p -> id p = Z.of_nat i) ->
    (forall p, p ∈ parsed -> error p = true ->
       exists i q, parsed !! i = Some q /\ error q = true /\
         (forall j r, (j < i)%nat -> parsed !! j = Some r -> error r = false) /\
         correlate packets parsed = Throw (JsonPtsPacketError q)) /\
    ((forall p, p ∈ parsed -> error p = false) ->
       correlate packets parsed = Ok parsed))).
Proof.
  unfold correlate. split; [|intros Hlen; split; [|intros Hids; split]].
  - intros Hlen. by case_decide.
  - intros i p Hi Hne. case_decide; [|done].
    destruct (check_ids_unit 0 parsed) as [Hok|[e He]].
    + rewrite check_ids_Ok in Hok. by destruct Hne; rewrite (Hok i p Hi).
    + rewrite He. cbn.
      apply check_ids_Throw in He as (j & q & Hq & Hqne & -> & Hbefore).
      exists j, q. by repeat split.
  - intros p Hp Herr. case_decide; [|done].
    apply (check_ids_Ok 0) in Hids. rewrite Hids. cbn.
    destruct (List.find error parsed) as [q|] eqn:Hfind.
    + apply find_error_Some in Hfind as (i & Hi & Hq & Hbefore).
      exists i, q. by repeat split.
    + rewrite find_error_None in Hfind. by rewrite (Hfind p Hp) in Herr.
  - intros Hnone. case_decide; [|done].
    apply (check_ids_Ok 0) in Hids. rewrite Hids. cbn.
    apply find_error_None in Hnone. by rewrite Hnone.
Qed.

Lemma correlate_Ok packets parsed ps :
  correlate packets parsed = Ok ps ->
  ps = parsed /\ length parsed = length packets /\
  (forall i p, parsed !! i = Some p -> id p = Z.of_nat i) /\
  (forall p, p ∈ parsed -> error p = false).
Proof.
  unfold correlate. case_decide as Hlen; [|done].
  destruct (check_ids_unit 0 parsed) as [Hok|[e He]]; rewrite ?Hok, ?He; cbn; [|done].
  destruct (List.find error parsed) eqn:Hfind; [done|]. intros [= <-].
  rewrite check_ids_Ok in Hok. rewrite find_error_None in Hfind. done.
Qed.

End correlation.

Section client_claims.
Context `{Runtime}.
Import Config Client.

Lemma execute_unfold cfg packets st raw st1 parsed :
  postWithAuth cfg (Jsonpts.buildEnvelope packets) st = (Ok raw, st1) ->
  Jsonpts.parseEnvelope raw = Ok parsed ->
  execute cfg packets st = (correlate packets parsed, st1).
Proof.
  intros Hpost Hparse. unfold execute, bind, lift. by rewrite Hpost, Hparse.
Qed.

Lemma execute_Ok cfg packets st ps st1 :
  execute cfg packets st = (Ok ps, st1) ->
  exists raw,
    postWithAuth cfg (Jsonpts.buildEnvelope packets) st = (Ok raw, st1) /\
    Jsonpts.parseEnvelope raw = Ok ps /\
    correlate packets ps = Ok ps.
Proof.
  unfold execute, bind, lift.
  destruct (postWithAuth _ _ st) as [[raw|e] st'] eqn:Hpost; [|done].
  destruct (Jsonpts.parseEnvelope raw) as [parsed|e] eqn:Hparse; [|done].
  intros [= Hcor <-]. pose proof Hcor as Hcor'.
  apply correlate_Ok in Hcor' as (-> & _). by exists raw.
Qed.

(** C3. Once the device's answer has been decoded into [parsed], [execute]
    throws the count error naming the number sent and the number received
    when the two differ; else, when some response's id differs from its
    position, the id error naming the first such position and the id found
    there; else, when some response is flagged, the packet error carrying
    the first flagged response, whole; and it returns only when no response
    is flagged, and then the full list. *)
Theorem execute_correlates cfg packets st raw st1 parsed :
  postWithAuth cfg (Jsonpts.buildEnvelope packets) st = (Ok raw, st1) ->
  Jsonpts.parseEnvelope raw = Ok parsed ->
  (length parsed ≠ length packets ->
   execute cfg packets st
   = (Throw (PacketCountMismatch (length packets) (length parsed)), st1) /\
   correlation_message (PacketCountMismatch (length packets) (length parsed))
   = Some ("Packet count mismatch: sent " +:+ pretty (Z.of_nat (length packets)) +:+
           ", got " +:+ pretty (Z.of_nat (length parsed)))) /\
  (length parsed = length packets ->
   (forall i p, parsed !! i = Some p -> id p ≠ Z.of_nat i ->
      exists j q, parsed !! j = Some q /\ id q ≠ Z.of_nat j /\
        (forall j' q', (j' < j)%nat -> parsed !! j' = Some q' -> id q' = Z.of_nat j') /\
        execute cfg packets st = (Throw (PacketIdMismatch j (id q)), st1) /\
        correlation_message (PacketIdMismatch j (id q))
        = Some ("Packet id mismatch at index " +:+ pretty (Z.of_nat j) +:+
                ": got " +:+ pretty (id q))) /\
   ((forall i p, parsed !! i = Some p -> id p = Z.of_nat i) ->
    (forall p, p ∈ parsed -> error p = true ->
       exists i q, parsed !! i = Some q /\ error q = true /\
         (forall j r, (j < i)%nat -> parsed !! j = Some r -> error r = false) /\
         execute cfg packets st = (Throw (JsonPtsPacketError q), st1)) /\
    ((forall p, p ∈ parsed -> error p = false) ->
       execute cfg packets st = (Ok parsed, st1)))) /\
  (forall ps st', execute cfg packets st = (Ok ps, st') ->
     ps = parsed /\ forall p, p ∈ parsed -> error p = false).
Proof.
  intros Hpost Hparse. rewrite (execute_unfold _ _ _ _ _ _ Hpost Hparse).
  destruct (correlate_spec packets parsed) as [Hcount Hsame].
  split; [|split].
  - intros Hlen. by rewrite (Hcount Hlen).
  - intros Hlen. destruct (Hsame Hlen) as [Hmis Hrest]. split.
    + intros i p Hi Hne. destruct (Hmis i p Hi Hne) as (j & q & Hq & Hqne & Hbefore & ->).
      exists j, q. by repeat split.
    + intros Hids. destruct (Hrest Hids) as [Hflag Hret]. split.
      * intros p Hp Hperr.
        destruct (Hflag p Hp Hperr) as (i & q & Hq & Hqerr & Hbefore & ->).
        exists i, q. by repeat split.
      * intros Hnone. by rewrite (Hret Hnone).
  - intros ps st' [= Hcor <-]. by apply correlate_Ok in Hcor as (-> & _ & _ & ?).
Qed.

(** C10. Whenever [setDateTime] resolves, it resolves to [true]: [execute]
    has already thrown for a flagged response. *)
Theorem setDateTime_returns_true cfg dateTime utcOffset autoSynchronize st b st' :
  setDateTime cfg dateTime utcOffset autoSynchronize st = (Ok b, st') -> b = true.
Proof.
  unfold setDateTime, bind.
  destruct (execute cfg _ st) as [[parsed|e] st1] eqn:Hexec; [|done].
  apply execute_Ok in Hexec as (raw & _ & _ & Hcor).
  apply correlate_Ok in Hcor as (_ & _ & _ & Hnone).
  destruct parsed as [|pkt rest]; [done|]. cbn. intros [= <- _].
  rewrite Hnone; [done|]. by left.
Qed.

End client_claims.

Lemma execute_correlates_witness :
  exists st1,
    Client.execute (H := Mock.rt) Mock.digest_cfg [Client.simple "GetDateTime"]
      (Mock.fresh [Mock.json_reply "two"])
    = (Throw (PacketCountMismatch 1 2), st1) /\
    correlation_message (PacketCountMismatch 1 2)
    = Some "Packet count mismatch: sent 1, got 2".
Proof.
  eassert (Hpost : Client.postWithAuth (H := Mock.rt) Mock.digest_cfg
                     (Jsonpts.buildEnvelope [Client.simple "GetDateTime"])
                     (Mock.fresh [Mock.json_reply "two"]) = (Ok _, _))
    by (vm_compute; reflexivity).
  match type of Hpost with
  | _ = (Ok ?r, _) =>
      eassert (Hparse : Jsonpts.parseEnvelope r = Ok _) by (vm_compute; reflexivity)
  end.
  destruct (execute_correlates _ _ _ _ _ _ Hpost Hparse) as [Hcount _].
  eexists. apply Hcount. cbn. lia.
Defined.

Lemma setDateTime_returns_true_witness :
  exists b st',
    Client.setDateTime (H := Mock.rt) Mock.digest_cfg "2026-02-12T08:30:00" None None
      (Mock.fresh [Mock.unauthorized Mock.digest_challenge; Mock.json_reply "confirmation"])
    = (Ok b, st') /\ b = true.
Proof.
  eexists _, _. split; [vm_compute; reflexivity|].
  eapply (setDateTime_returns_true (H := Mock.rt) Mock.digest_cfg "2026-02-12T08:30:00"
            None None
            (Mock.fresh [Mock.unauthorized Mock.digest_challenge;
                         Mock.json_reply "confirmation"])).
  vm_compute. reflexivity.
Defined.

(** ** The Digest handshake of the client *)

Section auth_claims.
Context `{Runtime}.
Import Config Client.

Lemma respond_401 url o hdrs :
  answered_401 o = Some hdrs -> respond url o = Ok (RawUnauthorized hdrs).
Proof.
  unfold answered_401, respond. destruct o as [err|res]; [done|].
  case_decide; [|done]. by intros [= <-].
Qed.

Lemma respond_not_401 url o :
  answered_401 o = None ->
  (exists e, respond url o = Throw e) \/ (exists v, respond url o = Ok (RawJson v)).
Proof.
  unfold answered_401, respond. destruct o as [err|res]; [eauto|].
  case_decide; [done|]. intros _.
  destruct (negb _); [eauto|].
  destruct (headers_get _ _) as [ct|]; [|eauto].
  destruct (Js.includes ct _); [|eauto].
  destruct (JSON_parse _); eauto.
Qed.

Lemma postJson_run cfg body extraHeaders st :
  postJson cfg body extraHeaders st
  = (respond (baseUrl cfg) (fetch (fetch_init cfg body extraHeaders) (world st)).1,
     {| digestNc := digestNc st;
        world := (fetch (fetch_init cfg body extraHeaders) (world st)).2;
        trace := trace st ++ [fetch_init cfg body extraHeaders] |}).
Proof. unfold postJson. by destruct (fetch _ _). Qed.

Lemma draw_randomHex_run n st :
  draw_randomHex n st
  = (Ok (randomHex n (world st)).1,
     {| digestNc := digestNc st; world := (randomHex n (world st)).2; trace := trace st |}).
Proof. unfold draw_randomHex. by destruct (randomHex _ _). Qed.

(** C2, as the code has it. With the digest scheme the client first sends
    exactly one POST without an [Authorization] header. If and only if that
    POST is answered 401 with a non-empty [WWW-Authenticate] header that
    parses as a Digest challenge, it increments the nonce-count and sends
    exactly one more POST, carrying the computed [Authorization] header, and
    resolves or rejects as that second exchange does; on a fresh client the
    nonce-count of the retry is formatted [00000001]. In every other case
    there is no retry and the nonce-count is unchanged; a 401 without (or
    with an empty) [WWW-Authenticate] header raises an error, and a 401
    whose non-empty [WWW-Authenticate] header is not a Digest challenge
    raises the error of the parser. *)
Theorem postWithAuth_digest_retries_once cfg body st o1 w1 r st' :
  auth cfg = Digest ->
  fetch (fetch_init cfg body []) (world st) = (o1, w1) ->
  postWithAuth cfg body st = (r, st') ->
  authorization_of (fetch_init cfg body []) = None /\
  match digest_challenge_of o1 with
  | Some ch =>
      let p := digest_params cfg ch (digestNc st + 1) in
      let cnonce := (randomHex 16 w1).1 in
      let retry := fetch_init cfg body [("Authorization", Digest.buildDigestAuthorization p cnonce)] in
      digestNc st' = digestNc st + 1 /\
      trace st' = (trace st ++ [fetch_init cfg body []; retry])%list /\
      authorization_of retry = Some (Digest.buildDigestAuthorization p cnonce) /\
      r = respond (baseUrl cfg) (fetch retry (randomHex 16 w1).2).1 /\
      (digestNc st = 0 ->
       Digest.ncStr p = "00000001" /\
       (Digest.truthy (Digest.qop p) = true -> "nc=00000001" ∈ Digest.parts p cnonce))
  | None =>
      digestNc st' = digestNc st /\
      trace st' = (trace st ++ [fetch_init cfg body []])%list /\
      (forall hdrs, answered_401 o1 = Some hdrs ->
         Digest.truthy (headers_get hdrs "www-authenticate") = false ->
         r = Throw UnauthorizedWithoutChallenge) /\
      (forall hdrs www, answered_401 o1 = Some hdrs ->
         headers_get hdrs "www-authenticate" = Some www -> www ≠ "" ->
         Digest.parseDigestChallenge www = Throw NotDigestChallenge /\
         r = Throw NotDigestChallenge)
  end.
Proof.
  intros Hauth Hf Hp. split; [reflexivity|].
  unfold postWithAuth in Hp. rewrite Hauth in Hp.
  unfold bind at 1 in Hp. rewrite postJson_run, Hf in Hp. cbn [fst snd] in Hp.
  unfold digest_challenge_of.
  destruct (answered_401 o1) as [hdrs|] eqn:H401.
  - rewrite (respond_401 _ _ _ H401) in Hp.
    cbn [unauthorized_flag challenge_header] in Hp. unfold bind at 1, lift at 1 in Hp.
    destruct (headers_get hdrs "www-authenticate") as [www|] eqn:Hwww.
    + destruct (Digest.truthy (Some www)) eqn:Htruthy.
      * change (default "" (Some www)) with www in Hp.
        unfold bind at 1, lift at 1 in Hp.
        destruct (Digest.parseDigestChallenge www) as [ch|e] eqn:Hch.
        -- unfold bind at 1, incr_digestNc in Hp. unfold bind in Hp.
           rewrite draw_randomHex_run, postJson_run in Hp.
           cbn [digestNc world trace] in Hp.
           injection Hp as <- <-. cbn [digestNc trace]. cbn zeta.
           split; [done|]. split; [by rewrite <- app_assoc|].
           split; [done|]. split; [done|].
           intros Hfresh. rewrite Hfresh. split; [reflexivity|].
           unfold Digest.parts. intros ->.
           rewrite !elem_of_app. do 4 right.
           apply elem_of_cons; right. apply elem_of_cons; left. reflexivity.
        -- injection Hp as <- <-. split; [done|]. split; [done|].
           assert (He : e = NotDigestChallenge).
           { unfold Digest.parseDigestChallenge in Hch.
             destruct (Digest.match_digest_prefix www); congruence. }
           subst e. split.
           ++ intros hdrs' [= <-]. rewrite Hwww. congruence.
           ++ intros hdrs' www' [= <-]. rewrite Hwww. intros [= <-] _. done.
      * injection Hp as <- <-. split; [done|]. split; [done|]. split.
        -- intros hdrs' [= <-]. by rewrite Hwww.
        -- intros hdrs' www' [= <-]. rewrite Hwww. intros [= <-] Hne.
           by destruct www.
    + injection Hp as <- <-. split; [done|]. split; [done|]. split; [done|].
      intros hdrs' www' [= <-]. by rewrite Hwww.
  - destruct (respond_not_401 (baseUrl cfg) o1 H401) as [[e He]|[v Hv]].
    + rewrite He in Hp. injection Hp as <- <-. by repeat split.
    + rewrite Hv in Hp. destruct (unauthorized_flag (RawJson v)).
      * cbn in Hp. injection Hp as <- <-. by repeat split.
      * cbn in Hp. injection Hp as <- <-. by repeat split.
Qed.

End auth_claims.

Lemma postWithAuth_digest_retries_once_witness :
  let body := Jsonpts.buildEnvelope [Client.simple "GetDateTime"] in
  let st := Mock.fresh [Mock.unauthorized Mock.digest_challenge; Mock.json_reply "datetime"] in
  exists o1 w1 r st',
    @fetch Mock.rt (Client.fetch_init Mock.digest_cfg body []) (Client.world st) = (o1, w1) /\
    Client.postWithAuth (H := Mock.rt) Mock.digest_cfg body st = (r, st') /\
    is_Some (Client.digest_challenge_of o1) /\
    Client.digestNc st' = 1 /\
    length (Client.trace st') = 2%nat.
Proof.
  intros body st.
  eassert (Hf : @fetch Mock.rt (Client.fetch_init Mock.digest_cfg body [])
                  (Client.world st) = (_, _)) by (vm_compute; reflexivity).
  eassert (Hp : Client.postWithAuth (H := Mock.rt) Mock.digest_cfg body st = (_, _))
    by (vm_compute; reflexivity).
  pose proof (postWithAuth_digest_retries_once (H := Mock.rt) Mock.digest_cfg body st
                _ _ _ _ eq_refl Hf Hp)
    as [_ Hm].
  eexists _, _, _, _. split; [exact Hf|]. split; [exact Hp|].
  destruct (Client.digest_challenge_of _) as [ch|] eqn:Hch.
  - destruct Hm as (Hnc & Htrace & _). split; [by eexists|].
    split; [exact Hnc|]. by rewrite Htrace.
  - vm_compute in Hch. discriminate Hch.
Defined.

(** C2, as stated, fails: a 401 that carries a [WWW-Authenticate] header
    which is not a Digest challenge is not retried, and the nonce-count
    stays as it was. *)
Lemma postWithAuth_basic_challenge_counterexample :
  let body := Jsonpts.buildEnvelope [Client.simple "GetDateTime"] in
  let st := Mock.fresh [Mock.unauthorized Mock.basic_challenge; Mock.json_reply "datetime"] in
  Client.headers_get Mock.basic_challenge "www-authenticate" = Some "Basic realm=PTS" /\
  exists st',
    Client.postWithAuth (H := Mock.rt) Mock.digest_cfg body st = (Throw NotDigestChallenge, st') /\
    Client.digestNc st' = Client.digestNc st /\
    length (Client.trace st') = 1%nat.
Proof.
  split; [reflexivity|]. eexists. split; [vm_compute; reflexivity|]. split; reflexivity.
Qed.

(** The end-to-end scenario of the specification: 401 with a Digest
    challenge, then 200. *)
Example execute_after_challenge :
  let st := Mock.fresh [Mock.unauthorized Mock.digest_challenge; Mock.json_reply "datetime"] in
  exists ps st' authz,
    Client.execute (H := Mock.rt) Mock.digest_cfg [Client.simple "GetDateTime"] st = (Ok ps, st') /\
    Client.authorization_of <$> Client.trace st' = [None; Some authz] /\
    Js.includes authz ", nc=00000001, " = true.
Proof.
  eexists _, _, _. split; [vm_compute; reflexivity|]. split; [vm_compute; reflexivity|].
  vm_compute. reflexivity.
Qed.

(** ** The Digest authenticator *)

Section string_facts.

Lemma append_cons x (a b : string) : String x a +:+ b = String x (a +:+ b).
Proof. reflexivity. Qed.

Lemma append_assoc (a b c : string) : (a +:+ b) +:+ c = a +:+ (b +:+ c).
Proof. induction a as [|x a IH]; [done|]. rewrite !append_cons. by f_equal. Qed.

Lemma append_empty_r (a : string) : a +:+ "" = a.
Proof. induction a as [|x a IH]; [done|]. rewrite append_cons. by f_equal. Qed.

Lemma length_append (a b : string) :
  String.length (a +:+ b) = (String.length a + String.length b)%nat.
Proof. induction a as [|x a IH]; [done|]. rewrite append_cons. simpl. by f_equal. Qed.

Lemma length_map_chars f s : String.length (Js.map_chars f s) = String.length s.
Proof. induction s as [|x s IH]; simpl; [done|]. by f_equal. Qed.

Lemma take_drop n s : Js.take n s +:+ Js.drop n s = s.
Proof.
  revert s. induction n as [|n IH]; intros [|x s]; simpl; try done.
  rewrite append_cons. by f_equal.
Qed.

Lemma take_length_append a b : Js.take (String.length a) (a +:+ b) = a.
Proof.
  induction a as [|x a IH]; [by destruct b|]. rewrite append_cons. simpl. by f_equal.
Qed.

Lemma drop_length_append a b : Js.drop (String.length a) (a +:+ b) = b.
Proof. induction a as [|x a IH]; [done|]. rewrite append_cons. by simpl. Qed.

Lemma trimStart_split s :
  exists ws, s = ws +:+ Js.trimStart s /\ Digest.all_space ws = true.
Proof.
  induction s as [|x s (ws & Hs & Hws)]; cbn; [by exists ""|].
  destruct (Js.is_space x) eqn:Hx.
  - exists (String x ws). rewrite append_cons. cbn. by rewrite <- Hs, Hx, Hws.
  - by exists "".
Qed.

Lemma trimStart_append ws s :
  Digest.all_space ws = true -> Js.trimStart (ws +:+ s) = Js.trimStart s.
Proof.
  induction ws as [|x ws IH]; [done|]. rewrite append_cons. cbn.
  intros [Hx Hws]%andb_true_iff. rewrite Hx. by apply IH.
Qed.

Lemma no_line_terminator_trimStart s :
  Digest.no_line_terminator s = true -> Digest.no_line_terminator (Js.trimStart s) = true.
Proof.
  induction s as [|x s IH]; cbn; [done|].
  intros [Hx Hs]%andb_true_iff. destruct (Js.is_space x); [by apply IH|].
  cbn. by rewrite Hx, Hs.
Qed.

Lemma lower_d_not_space c : Js.lower_char c = "d"%char -> Js.is_space c = false.
Proof. destruct c as [[] [] [] [] [] [] [] []]; by vm_compute. Qed.

End string_facts.

Section challenge_claims.
Import Digest.

Lemma match_digest_prefix_shaped h :
  is_Some (match_digest_prefix h) <-> digest_shaped h.
Proof.
  unfold match_digest_prefix, digest_shaped. split.
  - destruct (trimStart_split h) as (ws1 & Hh & Hws1).
    case_decide as Htok; [|by intros [? [=]]].
    destruct (Js.drop 6 (Js.trimStart h)) as [|c s2] eqn:Hdrop; [by intros [? [=]]|].
    destruct (Js.is_space c) eqn:Hc; [|by intros [? [=]]].
    destruct (no_line_terminator (Js.trimStart s2)) eqn:Hrest; [|by intros [? [=]]].
    intros _. destruct (trimStart_split s2) as (ws2 & Hs2 & Hws2).
    exists ws1, (Js.take 6 (Js.trimStart h)), (String c ws2), (Js.trimStart s2).
    split; [|repeat split; try done; cbn; by rewrite ?Hc, ?Hws2].
    rewrite Hh at 1. f_equal. rewrite <- (take_drop 6 (Js.trimStart h)) at 1.
    f_equal. rewrite Hdrop, append_cons. by rewrite <- Hs2.
  - intros (ws1 & tok & ws2 & rest & -> & Hws1 & Htok & Hne & Hws2 & Hrest).
    assert (Hlen : String.length tok = 6%nat).
    { rewrite <- (length_map_chars Js.lower_char tok). unfold Js.toLowerCase in Htok.
      by rewrite Htok. }
    destruct tok as [|c0 tok']; [done|].
    assert (Hc0 : Js.is_space c0 = false).
    { apply lower_d_not_space. unfold Js.toLowerCase in Htok. cbn in Htok. by injection Htok. }
    rewrite (trimStart_append ws1) by done.
    assert (Ht : Js.trimStart (String c0 tok' +:+ ws2 +:+ rest) = String c0 tok' +:+ ws2 +:+ rest).
    { rewrite append_cons. cbn. by rewrite Hc0. }
    rewrite Ht, <- Hlen, take_length_append, drop_length_append.
    rewrite decide_True by done.
    destruct ws2 as [|c ws2']; [done|]. cbn in Hws2. apply andb_true_iff in Hws2 as [Hc Hws2'].
    rewrite append_cons, Hc, (trimStart_append ws2') by done.
    by rewrite (no_line_terminator_trimStart rest Hrest).
Qed.

(** C8, as the code has it. [parseDigestChallenge] fails, with its one
    error, exactly when the header is not of the shape: optional whitespace,
    the token Digest in any case, at least one whitespace character, and a
    remainder without line breaks. On every header of that shape it returns
    a parsed attribute set. *)
Theorem parseDigestChallenge_total_on_shape (h : string) :
  (parseDigestChallenge h = Throw NotDigestChallenge <-> ~ digest_shaped h) /\
  (digest_shaped h -> exists ch, parseDigestChallenge h = Ok ch) /\
  (forall e, parseDigestChallenge h = Throw e -> e = NotDigestChallenge).
Proof.
  unfold parseDigestChallenge. rewrite <- match_digest_prefix_shaped.
  destruct (match_digest_prefix h) as [rest|]; repeat split.
  - done.
  - intros Hn. destruct Hn. by eexists.
  - by eexists.
  - done.
  - intros _ [? [=]].
  - by intros [? [=]].
  - by intros e [= <-].
Qed.

Lemma parseDigestChallenge_total_on_shape_witness :
  exists ch, parseDigestChallenge " digest  realm=PTS, nonce=5f2a9c" = Ok ch.
Proof.
  apply (proj1 (proj2 (parseDigestChallenge_total_on_shape _))).
  exists " ", "digest", "  ", "realm=PTS, nonce=5f2a9c". by repeat split.
Defined.

(** C8, as stated, fails: the header that is just the token Digest starts
    with that token and is refused. *)
Lemma parseDigestChallenge_bare_token_counterexample :
  Js.startsWith (Js.toLowerCase "Digest") "digest" = true /\
  parseDigestChallenge "Digest" = Throw NotDigestChallenge.
Proof. split; reflexivity. Qed.

End challenge_claims.

Section hex_facts.
Import Digest.

Lemma hex_digit_ok d :
  (d < 16)%N -> is_lower_hex (Js.hex_digit d) = true /\ hex_digit_value (Js.hex_digit d) = d.
Proof.
  intros Hd.
  assert (Hcases : In d [0; 1; 2; 3; 4; 5; 6; 7; 8; 9; 10; 11; 12; 13; 14; 15]%N).
  { cbn. lia. }
  cbn in Hcases. by repeat (destruct Hcases as [<-|Hcases]; [by vm_compute|]).
Qed.

Lemma all_lower_hex_append a b :
  all_lower_hex (a +:+ b) = all_lower_hex a && all_lower_hex b.
Proof.
  induction a as [|x a IH]; [done|]. rewrite append_cons. cbn.
  by rewrite IH, andb_assoc.
Qed.

Lemma hex_value_go_append a b acc :
  hex_value_go (a +:+ b) acc = hex_value_go b (hex_value_go a acc).
Proof.
  revert acc. induction a as [|x a IH]; intros acc; [done|].
  rewrite append_cons. cbn. by rewrite IH.
Qed.

Lemma to_hex_go_spec fuel (k : nat) n acc :
  (1 <= k <= fuel)%nat -> (n < 16 ^ N.of_nat k)%N ->
  exists ds,
    Js.to_hex_go fuel n acc = ds +:+ acc /\
    (1 <= String.length ds <= k)%nat /\
    all_lower_hex ds = true /\
    forall a, hex_value_go ds a = (a * 16 ^ N.of_nat (String.length ds) + n)%N.
Proof.
  revert k n acc. induction fuel as [|f IH]; intros k n acc [Hk1 Hkf] Hn; [lia|].
  cbn [Js.to_hex_go].
  destruct (hex_digit_ok (n mod 16)) as [Hhex Hval]; [by apply N.mod_lt|].
  pose proof (N.div_mod n 16 ltac:(done)) as Hdm.
  destruct (N.eqb_spec (n / 16) 0) as [Hq|Hq].
  - exists (String (Js.hex_digit (n mod 16)) ""). split; [done|].
    split; [cbn; lia|]. split; [by cbn; rewrite Hhex|].
    intros a. cbn. rewrite Hval. lia.
  - assert (Hk2 : (2 <= k)%nat).
    { destruct (decide (k = 1%nat)) as [->|]; [|lia].
      change (16 ^ N.of_nat 1)%N with 16%N in Hn. by rewrite N.div_small in Hq. }
    destruct (IH (k - 1)%nat (n / 16)%N (String (Js.hex_digit (n mod 16)) acc))
      as (ds & Heq & Hlen & Hds & Hv); [lia| |].
    { apply N.Div0.div_lt_upper_bound.
      replace (N.of_nat k) with (N.succ (N.of_nat (k - 1))) in Hn by lia.
      by rewrite N.pow_succ_r' in Hn. }
    exists (ds +:+ String (Js.hex_digit (n mod 16)) "").
    split; [by rewrite append_assoc|].
    rewrite length_append. cbn [String.length].
    split; [lia|]. split.
    { rewrite all_lower_hex_append, Hds. cbn. by rewrite Hhex. }
    intros a. rewrite hex_value_go_append, Hv. cbn. rewrite Hval.
    replace (N.of_nat (String.length ds + 1)) with (N.succ (N.of_nat (String.length ds))) by lia.
    rewrite N.pow_succ_r'. lia.
Qed.

Lemma N_to_hex_spec (k : nat) n :
  (1 <= k)%nat -> (n < 16 ^ N.of_nat k)%N ->
  (1 <= String.length (Js.N_to_hex n) <= k)%nat /\
  all_lower_hex (Js.N_to_hex n) = true /\
  hex_value (Js.N_to_hex n) = n.
Proof.
  intros Hk Hn. unfold Js.N_to_hex.
  set (fuel := S (N.to_nat (N.log2 n))).
  assert (Hfuel : (n < 16 ^ N.of_nat fuel)%N).
  { unfold fuel. replace (N.of_nat (S (N.to_nat (N.log2 n)))) with (N.succ (N.log2 n)) by lia.
    destruct (decide (n = 0%N)) as [->|Hn0]; [done|].
    eapply N.lt_le_trans; [apply N.log2_spec; lia|].
    apply N.pow_le_mono_l. lia. }
  destruct (to_hex_go_spec fuel (min k fuel) n "") as (ds & Heq & Hlen & Hds & Hv).
  { unfold fuel. lia. }
  { destruct (Nat.min_spec k fuel) as [[_ ->]|[_ ->]]; done. }
  rewrite Heq, append_empty_r. split; [lia|]. split; [done|].
  unfold hex_value. rewrite Hv. lia.
Qed.

Lemma length_repeat_char c m : String.length (Js.repeat_char c m) = m.
Proof. induction m as [|m IH]; cbn; [done|]. by f_equal. Qed.

Lemma padStart_hex (k : nat) ds :
  (String.length ds <= k)%nat -> all_lower_hex ds = true ->
  String.length (Js.padStart k "0" ds) = k /\
  all_lower_hex (Js.padStart k "0" ds) = true /\
  hex_value (Js.padStart k "0" ds) = hex_value ds.
Proof.
  intros Hlen Hds. unfold Js.padStart.
  rewrite length_append, length_repeat_char. split; [lia|].
  generalize (k - String.length ds)%nat as m. intros m. unfold hex_value.
  induction m as [|m [IHa IHv]]; [done|]. cbn [Js.repeat_char]. rewrite append_cons.
  split; [by cbn|]. cbn. exact IHv.
Qed.

(** The formatted nonce-count of a count below [2^32]: eight lower-case hex
    digits that denote it. *)
Lemma ncStr_eight_digits z :
  0 <= z < 2 ^ 32 ->
  let s := Js.padStart 8 "0" (Js.toString16 z) in
  String.length s = 8%nat /\ all_lower_hex s = true /\ hex_value s = Z.to_N z.
Proof.
  intros Hz s. unfold s, Js.toString16.
  assert (Hhex : Js.N_to_hex (Z.to_N z) = match z with Z.neg p => "-" +:+ Js.N_to_hex (N.pos p) | _ => Js.N_to_hex (Z.to_N z) end).
  { destruct z; [done..|lia]. }
  rewrite <- Hhex.
  destruct (N_to_hex_spec 8 (Z.to_N z)) as (Hlen & Hds & Hv); [lia| |].
  { change (16 ^ N.of_nat 8)%N with (Z.to_N (2 ^ 32)). lia. }
  destruct (padStart_hex 8 (Js.N_to_hex (Z.to_N z))) as (Hl & Ha & Hval); [lia|done|].
  by rewrite Hl, Ha, Hval.
Qed.

End hex_facts.

Section authorization_claims.
Context `{Runtime}.
Import Digest.

Lemma pickQop_Some x q : pickQop x = Some q -> truthy (Some q) = true.
Proof.
  unfold pickQop. destruct (truthy x); [|done]. case_bool_decide.
  - by intros [= <-].
  - intros Hq%head_Some_elem_of. apply list_elem_of_filter in Hq as [Hne _].
    by destruct q.
Qed.

(** C4, as the code has it, for a nonce-count in the range of eight hex
    digits ([0 <= nc < 2^32]). The nonce-count is formatted as exactly eight
    lower-case hex digits denoting it. When a qop is selected, the response
    digest is the hash of [HA1:nonce:nc8:cnonce:qop:HA2] and the header has
    the [qop], [nc] and [cnonce] fields; when no qop is selected (so when the
    challenge has none), the digest is the hash of [HA1:nonce:HA2] and the
    header has none of these fields. *)
Theorem buildDigestAuthorization_formula (params : DigestParams) (cnonce : string) :
  0 <= nc params < 2 ^ 32 ->
  (String.length (ncStr params) = 8%nat /\
   all_lower_hex (ncStr params) = true /\
   hex_value (ncStr params) = Z.to_N (nc params)) /\
  buildDigestAuthorization params cnonce = "Digest " +:+ Js.join ", " (parts params cnonce) /\
  "response=" +:+ quoted (response params cnonce) ∈ parts params cnonce /\
  (forall q, qop params = Some q ->
     response params cnonce
     = hash (algorithm params)
         (ha1 params cnonce +:+ ":" +:+ nonce params +:+ ":" +:+ ncStr params +:+ ":" +:+
          cnonce +:+ ":" +:+ q +:+ ":" +:+ ha2 params) /\
     "qop=" +:+ q ∈ parts params cnonce /\
     "nc=" +:+ ncStr params ∈ parts params cnonce /\
     "cnonce=" +:+ quoted cnonce ∈ parts params cnonce) /\
  (challenge params !! "qop" = None -> qop params = None) /\
  (qop params = None ->
     response params cnonce
     = hash (algorithm params) (ha1 params cnonce +:+ ":" +:+ nonce params +:+ ":" +:+ ha2 params) /\
     forall part, part ∈ parts params cnonce -> field_name part ∉ ["qop"; "nc"; "cnonce"]).
Proof.
  intros Hnc. split; [by apply ncStr_eight_digits|]. split; [reflexivity|].
  split; [|split; [|split]].
  - unfold parts. rewrite elem_of_app. left.
    do 4 (apply elem_of_cons; right). apply elem_of_cons; by left.
  - intros q Hq. pose proof (pickQop_Some _ _ Hq) as Ht. unfold qop in Hq.
    unfold response, parts, qop. rewrite Hq, Ht. cbn [default from_option Datatypes.id].
    split; [done|]. rewrite !elem_of_app.
    split; [|split]; do 4 right; rewrite !elem_of_cons; auto.
  - unfold qop. by intros ->.
  - intros Hq. unfold response, parts. rewrite Hq. cbn [truthy].
    split; [done|]. intros part. rewrite !elem_of_app.
    assert (Hname : forall k v, k ∈ ["username"; "realm"; "nonce"; "uri"; "response";
                                     "opaque"; "charset"; "algorithm"] ->
                                field_name (k +:+ "=" +:+ v) ∉ ["qop"; "nc"; "cnonce"]).
    { intros k v Hk. rewrite !elem_of_cons, elem_of_nil in Hk.
      destruct Hk as [->|[->|[->|[->|[->|[->|[->|[->|[]]]]]]]]];
        (match goal with
         | |- field_name (?k +:+ _) ∉ _ =>
             replace (field_name (k +:+ "=" +:+ v)) with k by (vm_compute; reflexivity)
         end);
        rewrite !not_elem_of_cons; repeat split; try discriminate; apply not_elem_of_nil. }
    intros [Hp|[Hp|[Hp|[Hp|Hp]]]]; [| | | |by apply elem_of_nil in Hp].
    + rewrite !elem_of_cons, elem_of_nil in Hp.
      destruct Hp as [->|[->|[->|[->|[->|[]]]]]];
        [apply (Hname "username")|apply (Hname "realm")|apply (Hname "nonce")
        |apply (Hname "uri")|apply (Hname "response")];
        rewrite !elem_of_cons; auto 10.
    + destruct (truthy (opaque params)); [|by apply elem_of_nil in Hp].
      apply list_elem_of_singleton in Hp as ->.
      apply (Hname "opaque"). rewrite !elem_of_cons; auto 10.
    + destruct (truthy (challenge params !! "charset")); [|by apply elem_of_nil in Hp].
      apply list_elem_of_singleton in Hp as ->.
      apply (Hname "charset"). rewrite !elem_of_cons; auto 10.
    + destruct (truthy (challenge params !! "algorithm")); [|by apply elem_of_nil in Hp].
      apply list_elem_of_singleton in Hp as ->.
      apply (Hname "algorithm"). rewrite !elem_of_cons; auto 10.
Qed.

End authorization_claims.

Lemma buildDigestAuthorization_formula_witness :
  let p := Client.digest_params Mock.digest_cfg
             {[ "realm" := "PTS"; "nonce" := "5f2a9c"; "qop" := "auth-int, auth" ]} 1 in
  Digest.ncStr p = "00000001" /\
  String.length (Digest.ncStr p) = 8%nat /\
  "qop=auth" ∈ Digest.parts (H := Mock.rt) p "0a4f113b" /\
  "nc=" +:+ Digest.ncStr p ∈ Digest.parts (H := Mock.rt) p "0a4f113b".
Proof.
  intros p.
  destruct (buildDigestAuthorization_formula (H := Mock.rt) p "0a4f113b")
    as ((Hlen & _) & _ & _ & Hqop & _).
  { unfold p. cbn. lia. }
  destruct (Hqop "auth") as (_ & Hq & Hn & _); [vm_compute; reflexivity|].
  split; [reflexivity|]. split; [exact Hlen|]. split; [exact Hq|exact Hn].
Defined.

(** C4, as stated, fails: a nonce-count of [2^32] is formatted with nine
    hex digits, in the digest input and in the header. *)
Lemma ncStr_nine_digits_counterexample :
  let p := Client.digest_params Mock.digest_cfg
             {[ "realm" := "PTS"; "nonce" := "5f2a9c"; "qop" := "auth" ]} 4294967296 in
  Digest.qop p = Some "auth" /\
  Digest.ncStr p = "100000000" /\
  String.length (Digest.ncStr p) = 9%nat /\
  "nc=100000000" ∈ Digest.parts (H := Mock.rt) p "0a4f113b".
Proof.
  intros p. split; [vm_compute; reflexivity|]. split; [vm_compute; reflexivity|].
  split; [vm_compute; reflexivity|].
  unfold Digest.parts. rewrite !elem_of_app. do 4 right.
  replace (Digest.truthy (Digest.qop p)) with true by (vm_compute; reflexivity).
  apply elem_of_cons; right. apply elem_of_cons; left. vm_compute. reflexivity.
Qed.

(** * Further properties of the code *)

(** ** Configuration *)

Section config_more.
Import Config.

(** Every configuration that loads satisfies the invariant of the schema:
    a non-empty host, positive ports and a positive timeout; and its host,
    login and password are the environment's, the empty string when
    absent. *)
Theorem loaded_config_invariant (env : gmap string string) cfg :
  loadPts2ConfigFromEnv env = Ok cfg ->
  host cfg ≠ "" /\ 0 < httpPort cfg /\ 0 < httpsPort cfg /\ 0 < timeoutMs cfg /\
  host cfg = default "" (env !! "PTS2_HOST") /\
  login cfg = default "" (env !! "PTS2_LOGIN") /\
  password cfg = default "" (env !! "PTS2_PASSWORD").
Proof.
  unfold loadPts2ConfigFromEnv, schema_parse.
  destruct (schema_issues (raw_of_env env)) as [|i issues] eqn:Hissues; [|discriminate].
  destruct (parse_security _); [|discriminate].
  destruct (parse_auth _); [|discriminate].
  intros [= <-]. cbn [host httpPort httpsPort timeoutMs login password].
  unfold schema_issues in Hissues.
  repeat match goal with
         | H : (_ ++ _)%list = [] |- _ => apply app_eq_nil in H as [? ?]
         end.
  repeat case_decide; try discriminate.
  cbn [raw_of_env raw_host raw_httpPort raw_httpsPort raw_timeoutMs] in *.
  repeat split; try done.
  intros Hh. by rewrite Hh in *.
Qed.

Lemma loaded_config_invariant_witness :
  exists cfg,
    loadPts2ConfigFromEnv {[ "PTS2_HOST" := "10.0.0.7"; "PTS2_HTTPS_PORT" := "8443" ]} = Ok cfg /\
    host cfg ≠ "" /\ 0 < httpsPort cfg.
Proof.
  eassert (Hload : loadPts2ConfigFromEnv
                     {[ "PTS2_HOST" := "10.0.0.7"; "PTS2_HTTPS_PORT" := "8443" ]} = Ok _)
    by (vm_compute; reflexivity).
  destruct (loaded_config_invariant _ _ Hload) as (Hhost & _ & Hport & _).
  eexists. split; [exact Hload|]. split; [exact Hhost|exact Hport].
Defined.

End config_more.

(** ** The envelope codec, further *)

Section decimal_facts.
Import Jsonpts.

Lemma pretty_N_char_digit d :
  (d < 10)%N ->
  Js.digit_val (pretty_N_char d) = Some (Z.of_N d) /\ is_digit (pretty_N_char d) = true.
Proof.
  intros Hd.
  assert (Hcases : In d [0; 1; 2; 3; 4; 5; 6; 7; 8; 9]%N) by (cbn; lia).
  cbn in Hcases. by repeat (destruct Hcases as [<-|Hcases]; [by vm_compute|]).
Qed.

Lemma all_digits_append a b : all_digits (a +:+ b) = all_digits a && all_digits b.
Proof.
  induction a as [|x a IH]; [done|]. rewrite append_cons. cbn.
  by rewrite IH, andb_assoc.
Qed.

(** The digits [pretty] writes for [x], in front of [s]. *)
Lemma pretty_N_go_digits x s :
  exists ds,
    pretty_N_go x s = ds +:+ s /\
    all_digits ds = true /\
    ((0 < x)%N -> ds ≠ "") /\
    forall rest a,
      Js.parse_digits (ds +:+ rest) (Some a)
      = Js.parse_digits rest (Some (a * 10 ^ Z.of_nat (String.length ds) + Z.of_N x)).
Proof.
  revert s. induction (N.lt_wf_0 x) as [x _ IH]; intros s.
  destruct (decide (x = 0%N)) as [->|Hx].
  - exists "". rewrite pretty_N_go_0. repeat split; [lia|].
    intros rest a. cbn. do 2 f_equal. lia.
  - rewrite pretty_N_go_step by lia.
    destruct (pretty_N_char_digit (x mod 10)) as [Hval Hdig]; [by apply N.mod_lt|].
    destruct (IH (x / 10)%N (N.div_lt x 10 ltac:(lia) ltac:(done))
                (String (pretty_N_char (x mod 10)) s)) as (ds & Heq & Hds & _ & Hparse).
    exists (ds +:+ String (pretty_N_char (x mod 10)) "").
    split; [by rewrite Heq, append_assoc|].
    split; [rewrite all_digits_append, Hds; cbn; by rewrite Hdig|].
    split; [by destruct ds|].
    intros rest a. rewrite append_assoc, Hparse, append_cons. cbn [Js.parse_digits].
    rewrite Hval. cbn [default from_option Datatypes.id]. do 2 f_equal.
    rewrite length_append. cbn [String.length].
    rewrite Nat2Z.inj_add, Z.pow_add_r by lia.
    pose proof (N.div_mod x 10 ltac:(done)) as Hdm.
    change (10 ^ Z.of_nat 1) with 10. lia.
Qed.

Lemma pretty_pos_digits p :
  exists c ds,
    pretty (N.pos p) = String c ds /\ is_digit c = true /\ all_digits ds = true /\
    Js.parse_digits (String c ds) None = Some (Z.pos p).
Proof.
  unfold pretty, pretty_N. rewrite decide_False by done.
  destruct (pretty_N_go_digits (N.pos p) "") as (ds & Heq & Hds & Hne & Hparse).
  rewrite Heq, append_empty_r.
  destruct ds as [|c ds]; [by destruct Hne|].
  cbn in Hds. apply andb_true_iff in Hds as [Hc Hds].
  exists c, ds. repeat split; try done.
  specialize (Hparse "" 0). rewrite append_empty_r in Hparse.
  cbn [Js.parse_digits] in Hparse |- *.
  destruct (Js.digit_val c) as [d|] eqn:Hd.
  - cbn [default from_option Datatypes.id] in Hparse |- *. rewrite Hparse. f_equal; lia.
  - unfold Js.digit_val in Hd. unfold is_digit in Hc. by rewrite Hc in Hd.
Qed.

Lemma parseInt_digit_head c s :
  is_digit c = true ->
  Js.parseInt (String c s)
  = match Js.parse_digits (String c s) None with
    | None => Js.NaN
    | Some m => Js.Num (1 * m)
    end.
Proof. destruct c as [[] [] [] [] [] [] [] []]; try discriminate; intros _; reflexivity. Qed.

(** [parseInt(String(n), 10)] gives [n] back. *)
Lemma parseInt_num_to_string z : Js.parseInt (Js.num_to_string z) = Js.Num z.
Proof.
  unfold Js.num_to_string, pretty, pretty_Z. destruct z as [|p|p]; [done| |].
  - change (pretty p) with (pretty (N.pos p)).
    destruct (pretty_pos_digits p) as (c & ds & -> & Hc & _ & Hparse).
    rewrite parseInt_digit_head, Hparse by done. f_equal; lia.
  - change (pretty p) with (pretty (N.pos p)).
    destruct (pretty_pos_digits p) as (c & ds & -> & Hc & _ & Hparse).
    unfold Js.parseInt. rewrite append_cons. change ("" +:+ String c ds) with (String c ds).
    change (Js.trimStart (String "-" (String c ds))) with (String "-" (String c ds)).
    cbv iota beta. rewrite Hparse. f_equal; lia.
Qed.

End decimal_facts.

Section codec_more.
Import Jsonpts.

Lemma pretty_Z_head z :
  exists c s, Js.num_to_string z = String c s /\ (is_digit c = true \/ c = "-"%char).
Proof.
  unfold Js.num_to_string, pretty, pretty_Z. destruct z as [|p|p].
  - exists "0"%char, "". by split; [|left].
  - change (pretty p) with (pretty (N.pos p)).
    destruct (pretty_pos_digits p) as (c & ds & -> & Hc & _). exists c, ds. auto.
  - exists "-"%char, (pretty p). by split; [|right].
Qed.

Lemma num_to_string_not_false z : Js.toLowerCase (Js.num_to_string z) ≠ "false".
Proof.
  destruct (pretty_Z_head z) as (c & s & -> & Hc). cbn. intros [= Hf _].
  destruct Hc as [Hc| ->]; [|discriminate].
  revert Hc Hf. destruct c as [[] [] [] [] [] [] [] []]; by vm_compute.
Qed.



(** How the [Error] field is read: absent or [null] is no error, a boolean
    is taken as it is, a string is an error unless it is [false] in any
    letter case, and a number is always an error, zero included. *)
Theorem error_flag_coercion (fields : list (string * JsonValue)) :
  (obj_get "Error" fields = None \/ obj_get "Error" fields = Some JNull ->
   packet_error fields = false) /\
  (forall b, obj_get "Error" fields = Some (JBool b) -> packet_error fields = b) /\
  (forall s, obj_get "Error" fields = Some (JStr s) ->
     (packet_error fields = false <-> Js.toLowerCase s = "false")) /\
  (forall n, obj_get "Error" fields = Some (JNum n) -> packet_error fields = true).
Proof.
  unfold packet_error. repeat split.
  - by intros [-> | ->].
  - by intros b ->.
  - rewrite H. cbn [js_String]. by intros ?%negb_false_iff%bool_decide_eq_true.
  - rewrite H. cbn [js_String]. intros Hs. by rewrite bool_decide_eq_true_2.
  - intros n ->. cbn [js_String]. apply negb_true_iff, bool_decide_eq_false.
    apply num_to_string_not_false.
Qed.

Lemma error_flag_coercion_witness :
  packet_error [("Id", JNum 0); ("Error", JNum 0)] = true.
Proof.
  apply (proj2 (proj2 (proj2 (error_flag_coercion _))) 0). reflexivity.
Defined.

(** Decoding neither drops nor repeats a packet: what [parseEnvelope]
    returns is a permutation of the decoded array elements, of the same
    length, in which the packets of any one id keep their arrival order. *)
Theorem parseEnvelope_keeps_packets (v : JsonValue) items ps :
  parseEnvelope (RawJson v) = Ok ps ->
  top_field "Packets" v = Some (JArr items) ->
  length ps = length items /\
  ps ≡ₚ omap decode_item items /\
  forall k, filter (fun p => id p = k) ps
            = filter (fun p => id p = k) (omap decode_item items).
Proof.
  intros Hparse Hitems.
  apply parseEnvelope_Ok in Hparse as (_ & items' & pkts & Hitems' & Hdec & ->).
  rewrite Hitems in Hitems'. injection Hitems' as <-.
  assert (Hpk : pkts = omap decode_item items).
  { clear -Hdec. induction Hdec as [|x p its pk Hx _ IH]; cbn; [done|]. by rewrite Hx, IH. }
  rewrite <- Hpk. split; [|split].
  - by rewrite sort_by_id_Permutation, (Forall2_length _ _ _ Hdec).
  - apply sort_by_id_Permutation.
  - intros k. apply sort_by_id_stable.
Qed.

Lemma parseEnvelope_keeps_packets_witness :
  let a := JObj [("Id", JNum 1); ("Type", JStr "first")] in
  let b := JObj [("Id", JNum 0); ("Type", JStr "second")] in
  let c := JObj [("Id", JNum 1); ("Type", JStr "third")] in
  exists ps,
    parseEnvelope (RawJson (envelope_of [a; b; c])) = Ok ps /\
    length ps = 3%nat /\
    type <$> filter (fun p => id p = 1) ps = [Some "first"; Some "third"].
Proof.
  intros a b c.
  eassert (Hparse : parseEnvelope (RawJson (envelope_of [a; b; c])) = Ok _)
    by (vm_compute; reflexivity).
  destruct (parseEnvelope_keeps_packets _ [a; b; c] _ Hparse eq_refl) as (Hlen & _ & Hst).
  eexists. split; [exact Hparse|]. split; [exact Hlen|]. by rewrite Hst.
Defined.

(** Reading back what [buildEnvelope] wrote: the encoded requests decode,
    in order, to packets with the position as id, the request's type and
    data, and no error flag. *)
Theorem buildEnvelope_decodes_back (packets : list JsonPtsPacketRequest) :
  parseEnvelope (RawJson (buildEnvelope packets)) = Ok (imap echo packets).
Proof.
  apply parseEnvelope_Ok. split; [reflexivity|].
  exists (imap buildPacket packets), (imap echo packets). split; [reflexivity|]. split.
  - apply Forall2_same_length_lookup_2; [by rewrite !length_imap|].
    intros i x y. rewrite !list_lookup_imap.
    destruct (packets !! i) as [p|]; [|done]. intros [= <-] [= <-].
    unfold buildPacket, echo. by destruct p as [t [d|]].
  - symmetry. apply sort_by_id_sorted, (positions_sorted 0).
    intros i p. rewrite list_lookup_imap.
    destruct (packets !! i) as [q|]; [|done]. by intros [= <-].
Qed.

End codec_more.

Section timestamp.
Import Jsonpts.

Local Instance number_eq_dec : EqDecision Js.number.
Proof. solve_decision. Defined.

Lemma pad2_two_digits n :
  0 <= n < 100 ->
  String.length (pad2 n) = 2%nat /\ all_digits (pad2 n) = true /\
  Js.parseInt (pad2 n) = Js.Num n.
Proof.
  revert n.
  apply (proj1 (Forall_seqZ
                  (fun n => String.length (pad2 n) = 2%nat /\ all_digits (pad2 n) = true /\
                            Js.parseInt (pad2 n) = Js.Num n) 0 100)).
  refine (bool_decide_unpack _ _). by vm_compute.
Qed.

Lemma year_four_digits y :
  1000 <= y < 1000 + 9000 -> String.length (Js.num_to_string y) = 4%nat.
Proof.
  revert y.
  apply (proj1 (Forall_seqZ (fun y => String.length (Js.num_to_string y) = 4%nat) 1000 9000)).
  refine (bool_decide_unpack _ _). by vm_compute.
Qed.

Lemma string_length_2 s :
  String.length s = 2%nat -> exists a b, s = String a (String b "").
Proof. destruct s as [|a [|b [|c s]]]; try discriminate. by exists a, b. Qed.

Lemma string_length_4 s :
  String.length s = 4%nat -> exists a b c d, s = String a (String b (String c (String d ""))).
Proof.
  destruct s as [|a [|b [|c [|d [|e s]]]]]; try discriminate. by exists a, b, c, d.
Qed.

(** For a date whose year has four digits, [formatPtsDateTime] writes the
    19 characters [YYYY-MM-DDTHH:MM:SS]: the separators stand at positions
    4, 7, 10, 13 and 16, and the fields between them read back as the year,
    the month counted from 1, the day, the hours, the minutes and the
    seconds. *)
Theorem formatPtsDateTime_shape (d : LocalDate) :
  1000 <= getFullYear d <= 9999 ->
  0 <= getMonth d <= 11 -> 1 <= getDate d <= 31 ->
  0 <= getHours d <= 23 -> 0 <= getMinutes d <= 59 -> 0 <= getSeconds d <= 59 ->
  let s := formatPtsDateTime d in
  String.length s = 19%nat /\
  (String.get 4 s = Some "-"%char /\ String.get 7 s = Some "-"%char /\
   String.get 10 s = Some "T"%char /\
   String.get 13 s = Some ":"%char /\ String.get 16 s = Some ":"%char) /\
  Js.parseInt (String.substring 0 4 s) = Js.Num (getFullYear d) /\
  Js.parseInt (String.substring 5 2 s) = Js.Num (getMonth d + 1) /\
  Js.parseInt (String.substring 8 2 s) = Js.Num (getDate d) /\
  Js.parseInt (String.substring 11 2 s) = Js.Num (getHours d) /\
  Js.parseInt (String.substring 14 2 s) = Js.Num (getMinutes d) /\
  Js.parseInt (String.substring 17 2 s) = Js.Num (getSeconds d).
Proof.
  intros Hy HM Hd HH Hm Hs. unfold formatPtsDateTime. cbv zeta.
  destruct (string_length_4 _ (year_four_digits (getFullYear d) ltac:(lia)))
    as (y1 & y2 & y3 & y4 & Hyear).
  pose proof (parseInt_num_to_string (getFullYear d)) as Hyp. rewrite Hyear in Hyp.
  destruct (pad2_two_digits (getMonth d + 1) ltac:(lia)) as (HlM & _ & HpM).
  destruct (pad2_two_digits (getDate d) ltac:(lia)) as (Hld & _ & Hpd).
  destruct (pad2_two_digits (getHours d) ltac:(lia)) as (HlH & _ & HpH).
  destruct (pad2_two_digits (getMinutes d) ltac:(lia)) as (Hlm & _ & Hpm).
  destruct (pad2_two_digits (getSeconds d) ltac:(lia)) as (Hls & _ & Hps).
  destruct (string_length_2 _ HlM) as (M1 & M2 & HeM).
  destruct (string_length_2 _ Hld) as (d1 & d2 & Hed).
  destruct (string_length_2 _ HlH) as (H1 & H2 & HeH).
  destruct (string_length_2 _ Hlm) as (m1 & m2 & Hem).
  destruct (string_length_2 _ Hls) as (s1 & s2 & Hes).
  rewrite HeM in HpM. rewrite Hed in Hpd. rewrite HeH in HpH.
  rewrite Hem in Hpm. rewrite Hes in Hps.
  rewrite Hyear, HeM, Hed, HeH, Hem, Hes.
  split; [reflexivity|]. split; [by repeat split|].
  repeat split; assumption.
Qed.

Lemma formatPtsDateTime_shape_witness :
  let d := {| getFullYear := 2026; getMonth := 1; getDate := 12;
              getHours := 8; getMinutes := 5; getSeconds := 0 |} in
  formatPtsDateTime d = "2026-02-12T08:05:00" /\
  String.length (formatPtsDateTime d) = 19%nat.
Proof.
  intros d. split; [reflexivity|].
  apply (formatPtsDateTime_shape d); cbn; lia.
Defined.

End timestamp.

(** ** The client, further *)

Section client_more.
Context `{Runtime}.
Import Config Client.

(** The headers of the first POST of [postWithAuth]. *)
Lemma postWithAuth_run cfg body st r st' :
  postWithAuth cfg body st = (r, st') ->
  let hs1 := match auth cfg with
             | Basic => [("Authorization", basicAuthHeader cfg)]
             | Digest => []
             end in
  let q1 := fetch_init cfg body hs1 in
  let o1 := (fetch q1 (world st)).1 in
  (digestNc st' = digestNc st /\ trace st' = (trace st ++ [q1])%list /\
   (r = respond (baseUrl cfg) o1 \/
    auth cfg = Digest /\ is_ok (respond (baseUrl cfg) o1) = true /\ is_ok r = false)) \/
  (auth cfg = Digest /\ is_Some (answered_401 o1) /\
   exists authz,
     digestNc st' = digestNc st + 1 /\
     trace st' = (trace st ++ [q1; fetch_init cfg body [("Authorization", authz)]])%list /\
     r = respond (baseUrl cfg)
           (fetch (fetch_init cfg body [("Authorization", authz)])
                  (randomHex 16 (fetch q1 (world st)).2).2).1).
Proof.
  unfold postWithAuth. destruct (auth cfg) eqn:Hauth.
  - rewrite postJson_run. intros [= <- <-]. left. auto.
  - unfold bind at 1. rewrite postJson_run. cbv zeta.
    set (q1 := fetch_init cfg body []).
    destruct (fetch q1 (world st)) as [o1 w1] eqn:Hf. cbn [fst snd].
    destruct (answered_401 o1) as [hdrs|] eqn:H401.
    + rewrite (respond_401 _ _ _ H401).
      cbn [unauthorized_flag challenge_header]. unfold bind at 1, lift at 1.
      destruct (Digest.truthy (headers_get hdrs "www-authenticate")) eqn:Htruthy.
      * unfold bind at 1, lift at 1.
        destruct (Digest.parseDigestChallenge _) as [ch|e] eqn:Hch.
        -- unfold bind at 1, incr_digestNc. unfold bind.
           rewrite draw_randomHex_run, postJson_run. cbn [digestNc world trace].
           intros [= <- <-]. right. split; [done|]. split; [by eexists|].
           eexists. cbn [digestNc trace]. split; [done|]. split; [by rewrite <- app_assoc|done].
        -- intros [= <- <-]. left. cbn. auto 10.
      * intros [= <- <-]. left. cbn. auto 10.
    + destruct (respond_not_401 (baseUrl cfg) o1 H401) as [[e He]|[v Hv]].
      * rewrite He. intros [= <- <-]. left. auto.
      * rewrite Hv. destruct (unauthorized_flag (RawJson v)); cbn.
        -- intros [= <- <-]. left. cbn. auto 10.
        -- intros [= <- <-]. left. auto.
Qed.

(** Whatever the scheme and the outcome, one call sends one or two POSTs,
    all to the client's URL, with the caller's body unchanged, the JSON
    content type first, the configured timeout, and the certificate check
    switched off exactly when the scheme is https and [tlsInsecure] is set;
    and the nonce-count never decreases and grows by at most one. *)
Theorem postWithAuth_requests cfg body st r st' :
  postWithAuth cfg body st = (r, st') ->
  exists sent,
    trace st' = (trace st ++ sent)%list /\
    (1 <= length sent <= 2)%nat /\
    Forall (fun q => req_url q = baseUrl cfg /\ req_body q = body /\
                     req_timeoutMs q = timeoutMs cfg /\
                     head (req_headers q) = Some ("content-type", "application/json") /\
                     (req_insecure q = true <->
                      security cfg = Https /\ tlsInsecure cfg = true)) sent /\
    digestNc st <= digestNc st' <= digestNc st + 1 /\
    (auth cfg = Basic -> length sent = 1%nat /\ digestNc st' = digestNc st).
Proof.
  intros Hrun. apply postWithAuth_run in Hrun. cbv zeta in Hrun.
  assert (Hinit : forall hs,
            req_url (fetch_init cfg body hs) = baseUrl cfg /\
            req_body (fetch_init cfg body hs) = body /\
            req_timeoutMs (fetch_init cfg body hs) = timeoutMs cfg /\
            head (req_headers (fetch_init cfg body hs))
            = Some ("content-type", "application/json") /\
            (req_insecure (fetch_init cfg body hs) = true <->
             security cfg = Https /\ tlsInsecure cfg = true)).
  { clear Hrun. intros hs. split; [done|]. split; [done|]. split; [done|]. split; [done|].
    cbn. unfold dispatcher. destruct (security cfg); intuition congruence. }
  destruct Hrun as [(Hnc & Htrace & _)|(Hauth & _ & authz & Hnc & Htrace & _)].
  - eexists. split; [exact Htrace|]. split; [cbn; lia|].
    split; [repeat (apply List.Forall_cons; [apply Hinit|]); apply List.Forall_nil|].
    split; [lia|]. done.
  - eexists. split; [exact Htrace|]. split; [cbn; lia|].
    split; [repeat (apply List.Forall_cons; [apply Hinit|]); apply List.Forall_nil|].
    split; [lia|]. congruence.
Qed.

(** With the basic scheme there is no challenge round trip: exactly one
    POST, carrying the precomputed [Basic] header, whose outcome is the
    outcome of the call; a 401 comes back as the unauthorized marker. *)
Theorem postWithAuth_basic cfg body st r st' :
  auth cfg = Basic ->
  postWithAuth cfg body st = (r, st') ->
  let q := fetch_init cfg body [("Authorization", basicAuthHeader cfg)] in
  trace st' = (trace st ++ [q])%list /\
  authorization_of q = Some ("Basic " +:+ base64 (login cfg +:+ ":" +:+ password cfg)) /\
  digestNc st' = digestNc st /\
  r = respond (baseUrl cfg) (fetch q (world st)).1 /\
  (forall hdrs, answered_401 (fetch q (world st)).1 = Some hdrs ->
     r = Ok (RawUnauthorized hdrs)).
Proof.
  intros Hauth. unfold postWithAuth. rewrite Hauth, postJson_run.
  intros [= <- <-]. repeat split. intros hdrs H401. by apply respond_401.
Qed.

(** A first exchange that fails is final, whatever the scheme: the error
    of the transport, of the status check or of the body check is the error
    of [execute], after exactly one POST and with the nonce-count as it
    was. *)
Theorem execute_first_failure_final cfg packets st e :
  let hs1 := match auth cfg with
             | Basic => [("Authorization", basicAuthHeader cfg)]
             | Digest => []
             end in
  let q1 := fetch_init cfg (Jsonpts.buildEnvelope packets) hs1 in
  respond (baseUrl cfg) (fetch q1 (world st)).1 = Throw e ->
  exists st',
    execute cfg packets st = (Throw e, st') /\
    trace st' = (trace st ++ [q1])%list /\
    digestNc st' = digestNc st.
Proof.
  intros hs1 q1 He. unfold execute, bind at 1, postWithAuth.
  subst q1 hs1. destruct (auth cfg).
  - rewrite postJson_run, He. by eexists.
  - unfold bind at 1. rewrite postJson_run, He. by eexists.
Qed.

(** How a rejected [fetch] is reported: a transport error for the
    client's URL, of kind timeout exactly when the rejection is an abort or
    carries one of the three timeout codes, of kind network otherwise;
    the REST layer then answers 504 for a timeout and 502 otherwise. *)
Theorem rejected_fetch_classified (url : string) (err : FetchError) :
  let code := default "" (from_option Some (err_code err) (cause_code err)) in
  let timed_out :=
    err_name err = Some "AbortError" \/
    code ∈ ["UND_ERR_ABORTED"; "ETIMEDOUT"; "ESOCKETTIMEDOUT"] in
  exists kind c msg,
    respond url (Rejects err) = Throw (Pts2TransportError kind url c msg) /\
    (kind = Timeout <-> timed_out) /\
    (c = None <-> code = "") /\
    Server.handleError_status (Pts2TransportError kind url c msg)
    = match kind with Timeout => 504 | Network => 502 end.
Proof.
  intros code timed_out. cbn [respond]. unfold classify. fold code.
  set (isTimeout := _ || _ || _ || _).
  assert (Ht : isTimeout = true <-> timed_out).
  { unfold isTimeout, timed_out. rewrite !orb_true_iff, !bool_decide_eq_true.
    rewrite !elem_of_cons, elem_of_nil. tauto. }
  eexists _, _, _. split; [reflexivity|]. split; [|split].
  - rewrite <- Ht. destruct isTimeout; split; congruence.
  - case_decide; split; congruence.
  - destruct isTimeout; reflexivity.
Qed.

(** What a caller of [execute] can rely on when it returns: as many
    responses as requests, the response at position [i] having id [i], and
    no response flagged as an error. *)
Theorem execute_result_shape cfg packets st ps st' :
  execute cfg packets st = (Ok ps, st') ->
  length ps = length packets /\
  (forall i p, ps !! i = Some p -> id p = Z.of_nat i /\ error p = false).
Proof.
  intros Hexec. apply execute_Ok in Hexec as (raw & _ & _ & Hcor).
  apply correlate_Ok in Hcor as (_ & Hlen & Hids & Hnone).
  split; [done|]. intros i p Hi. split; [by apply Hids|].
  apply Hnone. by apply list_elem_of_lookup_2 in Hi.
Qed.

(** An unanswered 401 is not reported as an authentication failure: when
    the exchange ends on the unauthorized marker, as it does for a 401
    under the basic scheme, [execute] throws the schema error of the
    envelope decoder, which the REST layer answers with 400. *)
Theorem execute_unauthorized_is_schema_error cfg packets st :
  (forall hdrs st',
     postWithAuth cfg (Jsonpts.buildEnvelope packets) st = (Ok (RawUnauthorized hdrs), st') ->
     execute cfg packets st = (Throw (ZodError ["Protocol"; "Packets"]), st')) /\
  (auth cfg = Basic ->
   forall hdrs,
     answered_401
       (fetch (fetch_init cfg (Jsonpts.buildEnvelope packets)
                 [("Authorization", basicAuthHeader cfg)]) (world st)).1 = Some hdrs ->
     exists st',
       execute cfg packets st = (Throw (ZodError ["Protocol"; "Packets"]), st') /\
       length (trace st') = S (length (trace st))) /\
  Server.handleError_status (ZodError ["Protocol"; "Packets"]) = 400.
Proof.
  split; [|split; [|reflexivity]].
  - intros hdrs st' Hpost. unfold execute, bind at 1. by rewrite Hpost.
  - intros Hauth hdrs H401. unfold execute, bind at 1, postWithAuth.
    rewrite Hauth, postJson_run, (respond_401 _ _ _ H401).
    eexists. split; [reflexivity|]. cbn. rewrite length_app. cbn. lia.
Qed.


(** [reportGetPumpTransactions] adds no failure of its own: it fails
    exactly as [execute] does, and otherwise returns the rows of the
    response when its data is an array, and no rows in every other case. *)
Theorem reportGetPumpTransactions_mirrors_execute cfg pump from to st :
  let request :=
    {| req_type := "ReportGetPumpTransactions";
       req_data := Some (JObj [("Pump", JNum pump); ("DateTimeStart", JStr from);
                               ("DateTimeEnd", JStr to)]) |} in
  match execute cfg [request] st with
  | (Ok ps, st1) =>
      exists pkt, ps = [pkt] /\
        reportGetPumpTransactions cfg pump from to st
        = (Ok (match data pkt with Some (JArr rows) => rows | _ => [] end), st1)
  | (Throw e, st1) => reportGetPumpTransactions cfg pump from to st = (Throw e, st1)
  end.
Proof.
  intros request. unfold reportGetPumpTransactions, bind. fold request.
  destruct (execute cfg [request] st) as [[ps|e] st1] eqn:Hexec; [|done].
  apply execute_Ok in Hexec as (_ & _ & _ & Hcor).
  apply correlate_Ok in Hcor as (_ & Hlen & _).
  destruct ps as [|pkt [|? ?]]; try discriminate Hlen.
  exists pkt. split; [done|]. by destruct (data pkt) as [[]|].
Qed.

(** [loadConfiguration] asks for the eight configuration packets in one
    envelope and, when it returns, returns eight responses with the ids 0
    to 7 in order. *)
Theorem loadConfiguration_eight cfg st ps st' :
  loadConfiguration cfg st = (Ok ps, st') ->
  Z.of_nat <$> seq 0 8 = id <$> ps /\
  exists sent, trace st' = (trace st ++ sent)%list /\ sent ≠ [] /\
    Forall (fun q =>
      exists items, req_body q = Jsonpts.envelope_of items /\
        (fun v => Jsonpts.top_field "Type" v) <$> items
        = (fun t => Some (JStr t)) <$>
            ["GetSystemDecimalDigits"; "GetMeasurementUnits"; "GetPumpsConfiguration";
             "GetFuelGradesConfiguration"; "GetPumpNozzlesConfiguration";
             "GetProbesConfiguration"; "GetUsersConfiguration";
             "GetConfigurationIdentifier"]) sent.
Proof.
  unfold loadConfiguration. intros Hexec.
  pose proof Hexec as Hshape. apply execute_Ok in Hshape as (raw & Hpost & _ & Hcor).
  apply correlate_Ok in Hcor as (_ & Hlen & Hids & _).
  split.
  - do 9 (destruct ps as [|? ps]; try discriminate Hlen).
    cbn. repeat f_equal;
      match goal with |- _ = id ?p => symmetry end;
      [apply (Hids 0%nat)|apply (Hids 1%nat)|apply (Hids 2%nat)|apply (Hids 3%nat)
      |apply (Hids 4%nat)|apply (Hids 5%nat)|apply (Hids 6%nat)|apply (Hids 7%nat)];
      reflexivity.
  - apply postWithAuth_run in Hpost. cbv zeta in Hpost.
    destruct Hpost as [(_ & Htrace & _)|(_ & _ & authz & _ & Htrace & _)];
      (eexists; split; [exact Htrace|]; split; [done|]);
      repeat (apply List.Forall_cons; [eexists; split; reflexivity|]); apply List.Forall_nil.
Qed.

End client_more.

Lemma postWithAuth_requests_witness :
  exists r st',
    Client.postWithAuth (H := Mock.rt) Mock.digest_cfg (JObj [])
      (Mock.fresh [Mock.unauthorized Mock.digest_challenge; Mock.json_reply "datetime"])
    = (r, st') /\
    length (Client.trace st') = 2%nat /\
    Forall (fun q => req_body q = JObj []) (Client.trace st').
Proof.
  eassert (Hrun : Client.postWithAuth (H := Mock.rt) Mock.digest_cfg (JObj [])
                    (Mock.fresh [Mock.unauthorized Mock.digest_challenge;
                                 Mock.json_reply "datetime"]) = (_, _))
    by (vm_compute; reflexivity).
  destruct (postWithAuth_requests _ _ _ _ _ Hrun) as (sent & Htrace & _ & Hall & _).
  eexists _, _. split; [exact Hrun|]. split; [reflexivity|].
  rewrite Htrace. cbn [Mock.fresh Client.new_client Client.trace app].
  eapply Forall_impl; [exact Hall|]. by intros q (_ & Hbody & _).
Defined.

Lemma postWithAuth_basic_witness :
  exists r st',
    Client.postWithAuth (H := Mock.rt) Mock.basic_cfg (JObj [])
      (Mock.fresh [Mock.json_reply "datetime"]) = (r, st') /\
    Client.authorization_of <$> Client.trace st' = [Some "Basic b64(admin:secret)"].
Proof.
  eassert (Hrun : Client.postWithAuth (H := Mock.rt) Mock.basic_cfg (JObj [])
                    (Mock.fresh [Mock.json_reply "datetime"]) = (_, _))
    by (vm_compute; reflexivity).
  destruct (postWithAuth_basic Mock.basic_cfg _ _ _ _ eq_refl Hrun) as (Htrace & Hauth & _).
  eexists _, _. split; [exact Hrun|]. by rewrite Htrace.
Defined.

Lemma execute_first_failure_final_witness :
  exists st',
    Client.execute (H := Mock.rt) Mock.digest_cfg [Client.simple "GetDateTime"]
      (Mock.fresh [Resolves {| status := 503; headers := []; text := "busy" |};
                   Mock.json_reply "datetime"])
    = (Throw (HttpStatus 503 "busy"), st') /\
    length (Client.trace st') = 1%nat.
Proof.
  destruct (execute_first_failure_final (H := Mock.rt) Mock.digest_cfg
              [Client.simple "GetDateTime"]
              (Mock.fresh [Resolves {| status := 503; headers := []; text := "busy" |};
                           Mock.json_reply "datetime"])
              (HttpStatus 503 "busy") eq_refl) as (st' & Hexec & Htrace & _).
  exists st'. split; [exact Hexec|]. by rewrite Htrace.
Defined.

Lemma execute_result_shape_witness :
  exists ps st',
    Client.execute (H := Mock.rt) Mock.basic_cfg [Client.simple "GetDateTime"]
      (Mock.fresh [Mock.json_reply "datetime"]) = (Ok ps, st') /\
    length ps = 1%nat.
Proof.
  eassert (Hrun : Client.execute (H := Mock.rt) Mock.basic_cfg [Client.simple "GetDateTime"]
                    (Mock.fresh [Mock.json_reply "datetime"]) = (Ok _, _))
    by (vm_compute; reflexivity).
  destruct (execute_result_shape _ _ _ _ _ Hrun) as [Hlen _].
  eexists _, _. split; [exact Hrun|exact Hlen].
Defined.

Lemma execute_unauthorized_is_schema_error_witness :
  exists st',
    Client.execute (H := Mock.rt) Mock.basic_cfg [Client.simple "GetDateTime"]
      (Mock.fresh [Mock.unauthorized Mock.basic_challenge])
    = (Throw (ZodError ["Protocol"; "Packets"]), st') /\
    length (Client.trace st') = 1%nat.
Proof.
  apply (proj1 (proj2 (execute_unauthorized_is_schema_error (H := Mock.rt) Mock.basic_cfg
                         [Client.simple "GetDateTime"]
                         (Mock.fresh [Mock.unauthorized Mock.basic_challenge])))
           eq_refl Mock.basic_challenge).
  reflexivity.
Defined.


Lemma loadConfiguration_eight_witness :
  exists ps st',
    Client.loadConfiguration (H := Mock.rt_configuration) Mock.basic_cfg
      (Client.new_client (H := Mock.rt_configuration)
         (Mock.world_of [Mock.json_reply "configuration"])) = (Ok ps, st') /\
    id <$> ps = [0; 1; 2; 3; 4; 5; 6; 7].
Proof.
  eassert (Hrun : Client.loadConfiguration (H := Mock.rt_configuration) Mock.basic_cfg
                    (Client.new_client (H := Mock.rt_configuration)
                       (Mock.world_of [Mock.json_reply "configuration"])) = (Ok _, _))
    by (vm_compute; reflexivity).
  destruct (loadConfiguration_eight _ _ _ _ Hrun) as [Hids _].
  eexists _, _. split; [exact Hrun|]. by rewrite <- Hids.
Defined.

(** ** The Digest authenticator, further *)

Section string_more.
Import Digest.

Lemma rev_app_append s1 s2 : String.rev_app s1 s2 = String.rev s1 +:+ s2.
Proof.
  unfold String.rev. revert s2. induction s1 as [|c s1 IH]; intros s2; [done|].
  cbn [String.rev_app]. rewrite IH, (IH (String c "")), append_assoc. done.
Qed.

Lemma rev_cons c s : String.rev (String c s) = String.rev s +:+ String c "".
Proof. unfold String.rev at 1. cbn [String.rev_app]. apply rev_app_append. Qed.

Lemma rev_append a b : String.rev (a +:+ b) = String.rev b +:+ String.rev a.
Proof.
  induction a as [|c a IH]; [by rewrite append_empty_r|].
  by rewrite append_cons, !rev_cons, IH, append_assoc.
Qed.

Lemma rev_involutive s : String.rev (String.rev s) = s.
Proof.
  induction s as [|c s IH]; [done|]. by rewrite rev_cons, rev_append, IH.
Qed.

Lemma all_chars_append P a b : all_chars P (a +:+ b) = all_chars P a && all_chars P b.
Proof.
  induction a as [|x a IH]; [done|]. rewrite append_cons. cbn.
  by rewrite IH, andb_assoc.
Qed.

Lemma all_chars_rev P s : all_chars P (String.rev s) = all_chars P s.
Proof.
  induction s as [|c s IH]; [done|]. rewrite rev_cons, all_chars_append, IH. cbn.
  by rewrite andb_true_r, andb_comm.
Qed.

Lemma all_chars_impl (P Q : ascii -> bool) s :
  (forall c, P c = true -> Q c = true) -> all_chars P s = true -> all_chars Q s = true.
Proof.
  intros HPQ. induction s as [|c s IH]; cbn; [done|].
  intros [Hc Hs]%andb_true_iff. by rewrite (HPQ c Hc), IH.
Qed.

Lemma trimStart_no_space s :
  all_chars (fun c => negb (Js.is_space c)) s = true -> Js.trimStart s = s.
Proof. destruct s as [|c s]; cbn; [done|]. intros [Hc _]%andb_true_iff. by destruct (Js.is_space c). Qed.

Lemma trimStart_head c s : Js.is_space c = false -> Js.trimStart (String c s) = String c s.
Proof. cbn. by intros ->. Qed.

Lemma trimEnd_last s c :
  Js.is_space c = false -> Js.trimEnd (s +:+ String c "") = s +:+ String c "".
Proof.
  intros Hc. unfold Js.trimEnd. rewrite rev_append.
  change (String.rev (String c "")) with (String c ""). rewrite append_cons.
  change ("" +:+ String.rev s) with (String.rev s).
  rewrite trimStart_head, rev_cons, rev_involutive by done. done.
Qed.

Lemma trim_no_space s :
  all_chars (fun c => negb (Js.is_space c)) s = true -> Js.trim s = s.
Proof.
  intros Hs. unfold Js.trim, Js.trimEnd. rewrite (trimStart_no_space s Hs).
  rewrite trimStart_no_space by (by rewrite all_chars_rev). apply rev_involutive.
Qed.

Lemma no_line_terminator_append a b :
  no_line_terminator (a +:+ b) = no_line_terminator a && no_line_terminator b.
Proof.
  induction a as [|x a IH]; [done|]. rewrite append_cons. cbn.
  by rewrite IH, andb_assoc.
Qed.

Lemma space_of_line_terminator c : Js.is_line_terminator c = true -> Js.is_space c = true.
Proof. destruct c as [[] [] [] [] [] [] [] []]; by vm_compute. Qed.

Lemma token_char_facts c :
  token_char c = true ->
  Js.is_space c = false /\ c ≠ ","%char /\ c ≠ "="%char /\ c ≠ dquote /\
  Js.is_line_terminator c = false.
Proof.
  unfold token_char. rewrite !andb_true_iff, !negb_true_iff, !bool_decide_eq_false.
  intros [[[Hs ?] ?] ?]. repeat split; try done.
  destruct (Js.is_line_terminator c) eqn:Hl; [|done].
  apply space_of_line_terminator in Hl. congruence.
Qed.

Lemma no_line_terminator_token k :
  all_chars token_char k = true -> no_line_terminator k = true.
Proof.
  induction k as [|c k IH]; cbn; [done|]. intros [Hc Hk]%andb_true_iff.
  destruct (token_char_facts c Hc) as (_ & _ & _ & _ & ->). by rewrite IH.
Qed.

Lemma no_line_terminator_value v :
  all_chars value_char v = true -> no_line_terminator v = true.
Proof.
  induction v as [|c v IH]; cbn; [done|]. intros [Hc Hv]%andb_true_iff.
  unfold value_char in Hc. apply andb_true_iff in Hc as [_ ->]. by rewrite IH.
Qed.

Lemma indexOf_append k c rest :
  all_chars (fun x => negb (bool_decide (x = c))) k = true ->
  Js.indexOf (k +:+ String c rest) c = Some (String.length k).
Proof.
  induction k as [|x k IH]; intros Hk.
  - change ("" +:+ String c rest) with (String c rest).
    cbn [Js.indexOf String.length]. by rewrite decide_True.
  - rewrite append_cons. cbn [Js.indexOf String.length]. cbn [all_chars] in Hk.
    apply andb_true_iff in Hk as [Hx Hk].
    apply negb_true_iff, bool_decide_eq_false in Hx.
    rewrite decide_False by done. by rewrite IH.
Qed.

End string_more.

Section challenge_round_trip.
Import Digest.

Lemma append_nil_l (s : string) : "" +:+ s = s.
Proof. reflexivity. Qed.

Ltac norm_append :=
  repeat (rewrite append_assoc || rewrite append_cons || rewrite append_nil_l).

Lemma go_step_plain ch rest out cur b :
  ch ≠ dquote -> (ch ≠ ","%char \/ b = true) ->
  splitAuthParams_go (String ch rest) out cur b
  = splitAuthParams_go rest out (cur +:+ String ch "") b.
Proof.
  intros Hq Hc. cbn [splitAuthParams_go]. cbv zeta. rewrite decide_False by done.
  destruct Hc as [Hc| ->].
  - by rewrite bool_decide_eq_false_2.
  - by rewrite andb_false_r.
Qed.

Lemma go_step_quote rest out cur b :
  splitAuthParams_go (String dquote rest) out cur b
  = splitAuthParams_go rest out (cur +:+ String dquote "") (negb b).
Proof.
  cbn [splitAuthParams_go]. cbv zeta. rewrite decide_True by done.
  by rewrite (bool_decide_eq_false_2 (dquote = ","%char)).
Qed.

Lemma go_step_comma rest out cur :
  splitAuthParams_go (String ","%char rest) out cur false
  = splitAuthParams_go rest (out ++ [Js.trim cur]) "" false.
Proof.
  cbn [splitAuthParams_go]. cbv zeta. rewrite decide_False by done.
  by rewrite bool_decide_eq_true_2.
Qed.

Lemma go_run s rest out cur b :
  all_chars (fun c => negb (bool_decide (c = dquote)) &&
                      (b || negb (bool_decide (c = ","%char)))) s = true ->
  splitAuthParams_go (s +:+ rest) out cur b = splitAuthParams_go rest out (cur +:+ s) b.
Proof.
  revert cur. induction s as [|c s IH]; intros cur Hs.
  - by rewrite append_nil_l, append_empty_r.
  - cbn [all_chars] in Hs. apply andb_true_iff in Hs as [Hc Hs].
    apply andb_true_iff in Hc as [Hq Hcomma].
    apply negb_true_iff, bool_decide_eq_false in Hq.
    rewrite append_cons, go_step_plain, IH, append_assoc; [done..|].
    destruct b; [by right|left]. by apply negb_true_iff, bool_decide_eq_false in Hcomma.
Qed.

Lemma go_attr kv rest out cur :
  well_formed_attr kv ->
  splitAuthParams_go (render_attr kv +:+ rest) out cur false
  = splitAuthParams_go rest out (cur +:+ render_attr kv) false.
Proof.
  destruct kv as [k v]. intros (_ & Hk & Hv). unfold render_attr, quoted. cbn [fst snd].
  norm_append.
  rewrite go_run.
  2:{ eapply all_chars_impl; [|exact Hk]. intros c Hc.
      destruct (token_char_facts c Hc) as (_ & ? & _ & ? & _).
      by rewrite !bool_decide_eq_false_2. }
  rewrite go_step_plain; [|done|by left]. rewrite go_step_quote. cbn [negb].
  rewrite go_run.
  2:{ eapply all_chars_impl; [|exact Hv]. intros c Hc.
      unfold value_char in Hc. apply andb_true_iff in Hc as [-> _]. done. }
  rewrite go_step_quote. cbn [negb]. by norm_append.
Qed.

Lemma render_attr_trim kv ws :
  well_formed_attr kv -> all_space ws = true -> Js.trim (ws +:+ render_attr kv) = render_attr kv.
Proof.
  destruct kv as [k v]. intros (Hne & Hk & _) Hws. unfold Js.trim.
  rewrite trimStart_append by done. unfold render_attr, quoted. cbn [fst snd].
  destruct k as [|c k]; [done|]. cbn [all_chars] in Hk. apply andb_true_iff in Hk as [Hc _].
  destruct (token_char_facts c Hc) as (Hsp & _).
  rewrite append_cons, trimStart_head by done.
  replace (String c (k +:+ "=" +:+ String dquote (v +:+ String dquote "")))
    with (String c (k +:+ "=" +:+ String dquote v) +:+ String dquote "")
    by (by norm_append).
  by apply trimEnd_last.
Qed.

Lemma render_attr_nonempty kv : render_attr kv ≠ "".
Proof. destruct kv as [[|c k] v]; unfold render_attr; cbn [fst]; by norm_append. Qed.

Lemma go_join kvs out ws :
  Forall well_formed_attr kvs -> kvs ≠ [] -> all_space ws = true ->
  splitAuthParams_go (Js.join ", " (render_attr <$> kvs)) out ws false
  = (out ++ (render_attr <$> kvs))%list.
Proof.
  intros Hall. revert out ws.
  induction Hall as [|kv kvs Hkv Hall IH]; intros out ws Hne Hws; [done|]. clear Hne.
  destruct kvs as [|kv2 kvs].
  - cbn [fmap list_fmap Js.join].
    rewrite <- (append_empty_r (render_attr kv)) at 1. rewrite go_attr by done.
    cbn [splitAuthParams_go]. rewrite render_attr_trim by done.
    rewrite decide_False by apply render_attr_nonempty. done.
  - change (Js.join ", " (render_attr <$> kv :: kv2 :: kvs))
      with (render_attr kv +:+ ", " +:+ Js.join ", " (render_attr <$> kv2 :: kvs)).
    rewrite go_attr by done. rewrite append_cons, go_step_comma, render_attr_trim by done.
    rewrite append_cons, go_step_plain; [|done|by left]. rewrite append_nil_l at 1.
    rewrite IH by done. by rewrite <- app_assoc.
Qed.

Lemma splitAuthParams_join kvs :
  Forall well_formed_attr kvs ->
  splitAuthParams (Js.join ", " (render_attr <$> kvs)) = render_attr <$> kvs.
Proof.
  intros Hall. unfold splitAuthParams. destruct kvs as [|kv kvs]; [done|].
  by rewrite go_join.
Qed.

Lemma startsWith_empty s : Js.startsWith s "" = true.
Proof. by destruct s. Qed.

Lemma parse_param_render kv (params : gmap string string) :
  well_formed_attr kv ->
  parse_param params (render_attr kv)
  = if decide (kv.1 = "__proto__") then params else <[kv.1 := kv.2]> params.
Proof.
  destruct kv as [k v]. intros (Hne & Hk & Hv). cbn [fst snd].
  unfold parse_param, render_attr. cbn [fst snd].
  change (k +:+ "=" +:+ quoted v) with (k +:+ String "="%char (quoted v)).
  rewrite indexOf_append.
  2:{ eapply all_chars_impl; [|exact Hk]. intros c Hc.
      destruct (token_char_facts c Hc) as (_ & _ & ? & _). by rewrite bool_decide_eq_false_2. }
  assert (Hlen : exists n, String.length k = S n).
  { destruct k; [done|]. by eexists. }
  destruct Hlen as [n Hlen]. rewrite Hlen. cbv iota beta. rewrite <- Hlen.
  rewrite take_length_append.
  replace (Js.drop (S (String.length k)) (k +:+ String "="%char (quoted v))) with (quoted v).
  2:{ replace (k +:+ String "="%char (quoted v)) with ((k +:+ "=") +:+ quoted v) by (by norm_append).
      replace (S (String.length k)) with (String.length (k +:+ "="))
        by (rewrite length_append; cbn; lia).
      by rewrite drop_length_append. }
  rewrite trim_no_space.
  2:{ eapply all_chars_impl; [|exact Hk]. intros x Hx.
      destruct (token_char_facts x Hx) as (-> & _). done. }
  assert (Hq : Js.trim (quoted v) = quoted v).
  { unfold Js.trim, quoted. rewrite trimStart_head by done.
    replace (String dquote (v +:+ String dquote "")) with (String dquote v +:+ String dquote "")
      by (by norm_append).
    by apply trimEnd_last. }
  rewrite Hq.
  assert (Hs : Js.startsWith (quoted v) (String dquote "") = true).
  { unfold quoted. cbn. by rewrite decide_True, startsWith_empty. }
  assert (He : Js.endsWith (quoted v) (String dquote "") = true).
  { unfold Js.endsWith, quoted.
    replace (String dquote (v +:+ String dquote "")) with (String dquote v +:+ String dquote "")
      by (by norm_append).
    rewrite rev_append. change (String.rev (String dquote "")) with (String dquote "").
    rewrite append_cons. cbn. by rewrite decide_True, startsWith_empty. }
  rewrite Hs, He. cbn [andb]. destruct (decide (k = "__proto__")); [done|]. f_equal.
  unfold Js.slice_1_m1, quoted. cbn [Js.drop String.length].
  rewrite length_append. cbn [String.length].
  replace (S (String.length v + 1) - 2)%nat with (String.length v) by lia.
  apply take_length_append.
Qed.

Lemma join_render_no_line_terminator kvs :
  Forall well_formed_attr kvs ->
  no_line_terminator (Js.join ", " (render_attr <$> kvs)) = true.
Proof.
  assert (Hone : forall kv, well_formed_attr kv -> no_line_terminator (render_attr kv) = true).
  { intros [k v] (_ & Hk & Hv). unfold render_attr, quoted. cbn [fst snd]. norm_append.
    rewrite no_line_terminator_append, (no_line_terminator_token k Hk).
    cbn. rewrite no_line_terminator_append, (no_line_terminator_value v Hv). done. }
  induction 1 as [|kv kvs Hkv Hall IH]; [done|].
  destruct kvs as [|kv2 kvs]; [by apply Hone|].
  change (Js.join ", " (render_attr <$> kv :: kv2 :: kvs))
    with (render_attr kv +:+ ", " +:+ Js.join ", " (render_attr <$> kv2 :: kvs)).
  rewrite no_line_terminator_append, (Hone kv Hkv), append_cons. cbn. rewrite append_cons.
  cbn. exact IH.
Qed.

Lemma join_render_trimStart kvs :
  Forall well_formed_attr kvs ->
  Js.trimStart (Js.join ", " (render_attr <$> kvs)) = Js.join ", " (render_attr <$> kvs).
Proof.
  intros Hall. destruct Hall as [|[k v] kvs (Hne & Hk & _) _]; [done|].
  assert (Hhead : forall rest, Js.trimStart (render_attr (k, v) +:+ rest) = render_attr (k, v) +:+ rest).
  { intros rest. unfold render_attr. cbn [fst snd]. destruct k as [|c k]; [done|].
    cbn [all_chars] in Hk. apply andb_true_iff in Hk as [Hc _].
    destruct (token_char_facts c Hc) as (Hsp & _). norm_append. by apply trimStart_head. }
  destruct kvs as [|kv2 kvs].
  - cbn [fmap list_fmap Js.join]. rewrite <- (append_empty_r (render_attr (k, v))). apply Hhead.
  - apply Hhead.
Qed.

Lemma foldl_insert_notin (kvs : list (string * string)) (m : gmap string string) k :
  k ∉ kvs.*1 -> foldl (fun m kv => <[kv.1 := kv.2]> m) m kvs !! k = m !! k.
Proof.
  revert m. induction kvs as [|[k' v'] kvs IH]; intros m; cbn; [done|].
  rewrite not_elem_of_cons. intros [Hne Hnotin]. rewrite IH by done.
  by rewrite lookup_insert_ne.
Qed.

Lemma parseDigestChallenge_render (kvs : list (string * string)) :
  Forall well_formed_attr kvs ->
  parseDigestChallenge (render_challenge kvs)
  = Ok (foldl (fun m kv => <[kv.1 := kv.2]> m) ∅ (kept kvs)).
Proof.
  intros Hall.
  unfold parseDigestChallenge, render_challenge, match_digest_prefix.
  set (body := Js.join ", " (render_attr <$> kvs)).
  change (Js.trimStart ("Digest " +:+ body)) with ("Digest " +:+ body).
  change (Js.take 6 ("Digest " +:+ body)) with "Digest".
  change (Js.drop 6 ("Digest " +:+ body)) with (String " "%char body).
  rewrite decide_True by reflexivity. cbv iota beta.
  change (Js.is_space " ") with true. cbv iota.
  unfold body. rewrite join_render_trimStart, join_render_no_line_terminator by done.
  rewrite splitAuthParams_join by done. f_equal.
  generalize (∅ : gmap string string) as m. clear -Hall.
  induction Hall as [|kv kvs Hkv _ IH]; intros m; [done|].
  cbn [fmap list_fmap foldl]. rewrite parse_param_render by done.
  unfold kept. rewrite filter_cons. fold (kept kvs).
  destruct (decide (kv.1 = "__proto__")) as [Hk|Hk].
  - rewrite decide_False by (by intros ?). apply IH.
  - rewrite decide_True by done. apply IH.
Qed.

Lemma foldl_insert_lookup (kvs : list (string * string)) (m : gmap string string) k v :
  NoDup kvs.*1 -> (k, v) ∈ kvs ->
  foldl (fun m kv => <[kv.1 := kv.2]> m) m kvs !! k = Some v.
Proof.
  revert m. induction kvs as [|[k' v'] kvs IH]; intros m Hnd Hin; [by apply elem_of_nil in Hin|].
  cbn in Hnd. apply NoDup_cons in Hnd as [Hnotin Hnd].
  apply elem_of_cons in Hin as [[= <- <-]|Hin]; cbn [foldl fst snd].
  - rewrite foldl_insert_notin by done. apply lookup_insert_eq.
  - by apply IH.
Qed.

Lemma kept_lookup (kvs : list (string * string)) k v :
  NoDup kvs.*1 -> (k, v) ∈ kvs -> k ≠ "__proto__" ->
  foldl (fun m kv => <[kv.1 := kv.2]> m) (∅ : gmap string string) (kept kvs) !! k = Some v.
Proof.
  intros Hnd Hin Hk. apply foldl_insert_lookup.
  - eapply sublist_NoDup; [exact Hnd|]. apply fmap_sublist, sublist_filter.
  - apply list_elem_of_filter. by split.
Qed.

Lemma kept_no_proto (kvs : list (string * string)) (m : gmap string string) :
  m !! "__proto__" = None ->
  foldl (fun m kv => <[kv.1 := kv.2]> m) m (kept kvs) !! "__proto__" = None.
Proof.
  intros Hm. rewrite foldl_insert_notin; [done|].
  intros ((k & v) & Hk & Hin%list_elem_of_filter)%list_elem_of_fmap.
  cbn in Hk. destruct Hin as [Hne _]. by apply Hne.
Qed.

(** A challenge written in ASCII as [Digest] followed by [name="value"]
    attributes parses back to those attributes: quoted values keep their commas,
    spaces and equals signs, and a repeated name takes its last value. The
    one name that is not stored is [__proto__]: the challenge holds nothing
    under it, and every attribute of another name is found under its name
    when the names are distinct. *)
Theorem parseDigestChallenge_round_trip (kvs : list (string * string)) :
  Forall well_formed_attr kvs -> Forall ascii_attr kvs ->
  exists ch,
    parseDigestChallenge (render_challenge kvs) = Ok ch /\
    ch = foldl (fun m kv => <[kv.1 := kv.2]> m) ∅ (kept kvs) /\
    ch !! "__proto__" = None /\
    (NoDup kvs.*1 -> forall k v, (k, v) ∈ kvs -> k ≠ "__proto__" -> ch !! k = Some v).
Proof.
  intros Hall _. eexists. split; [by apply parseDigestChallenge_render|].
  split; [done|]. split; [by apply kept_no_proto|].
  intros Hnd k v Hin Hk. by apply kept_lookup.
Qed.

Lemma parseDigestChallenge_round_trip_witness :
  exists ch,
    parseDigestChallenge
      (render_challenge [("realm", "PTS, pump room"); ("__proto__", "x"); ("nonce", "5f2a9c=")])
    = Ok ch /\
    ch !! "realm" = Some "PTS, pump room" /\ ch !! "__proto__" = None.
Proof.
  assert (Hwf : Forall well_formed_attr
                  [("realm", "PTS, pump room"); ("__proto__", "x"); ("nonce", "5f2a9c=")]).
  { repeat (apply List.Forall_cons; [split; [done|split; reflexivity]|]). apply List.Forall_nil. }
  assert (Hascii : Forall ascii_attr
                     [("realm", "PTS, pump room"); ("__proto__", "x"); ("nonce", "5f2a9c=")]).
  { repeat (apply List.Forall_cons; [split; reflexivity|]). apply List.Forall_nil. }
  destruct (parseDigestChallenge_round_trip _ Hwf Hascii) as (ch & Hparse & _ & Hproto & Hfind).
  exists ch. split; [exact Hparse|]. split; [|exact Hproto].
  apply Hfind.
  - cbn. repeat constructor; rewrite ?elem_of_cons, ?elem_of_nil; intuition discriminate.
  - apply elem_of_cons. by left.
  - discriminate.
Defined.

Section echo.
Context `{Runtime}.

(** Parsing and answering compose: the [Authorization] header built from
    a parsed challenge repeats the challenge's realm and nonce in quotes,
    gives the request URI, and repeats a non-empty opaque value. *)
Theorem authorization_echoes_challenge (kvs : list (string * string))
    (user pass meth path cnonce r n : string) (count : Z) :
  Forall well_formed_attr kvs -> NoDup kvs.*1 ->
  ("realm", r) ∈ kvs -> ("nonce", n) ∈ kvs ->
  exists ch,
    parseDigestChallenge (render_challenge kvs) = Ok ch /\
    let p := {| username := user; password := pass; method := meth; uri := path;
                challenge := ch; nc := count |} in
    "realm=" +:+ quoted r ∈ parts p cnonce /\
    "nonce=" +:+ quoted n ∈ parts p cnonce /\
    "uri=" +:+ quoted path ∈ parts p cnonce /\
    (forall o, ("opaque", o) ∈ kvs -> o ≠ "" -> "opaque=" +:+ quoted o ∈ parts p cnonce).
Proof.
  intros Hall Hnd Hr Hn. eexists. split; [by apply parseDigestChallenge_render|].
  cbv zeta. unfold parts, realm, nonce, opaque. cbn [challenge uri username].
  rewrite (kept_lookup kvs "realm" r), (kept_lookup kvs "nonce" n) by done.
  cbn [default from_option Datatypes.id].
  repeat split.
  - rewrite elem_of_app. left. rewrite !elem_of_cons. auto.
  - rewrite elem_of_app. left. rewrite !elem_of_cons. auto.
  - rewrite elem_of_app. left. rewrite !elem_of_cons. auto.
  - intros o Ho Hne. rewrite (kept_lookup kvs "opaque" o) by done.
    replace (truthy (Some o)) with true by (by destruct o).
    rewrite !elem_of_app. right. left. cbn. apply elem_of_cons. by left.
Qed.

End echo.

End challenge_round_trip.

Lemma authorization_echoes_challenge_witness :
  exists ch,
    Digest.parseDigestChallenge
      (Digest.render_challenge [("realm", "PTS"); ("nonce", "5f2a9c")]) = Ok ch /\
    "realm=" +:+ Digest.quoted "PTS"
    ∈ Digest.parts (H := Mock.rt) (Client.digest_params Mock.digest_cfg ch 1) "0a4f113b".
Proof.
  assert (Hwf : Forall Digest.well_formed_attr [("realm", "PTS"); ("nonce", "5f2a9c")]).
  { repeat (apply List.Forall_cons; [split; [done|split; reflexivity]|]). apply List.Forall_nil. }
  destruct (authorization_echoes_challenge (H := Mock.rt) _ "admin" "secret" "POST" "/jsonPTS"
              "0a4f113b" "PTS" "5f2a9c" 1 Hwf) as (ch & Hparse & Hrealm & _).
  - cbn. repeat constructor; rewrite ?elem_of_cons, ?elem_of_nil; intuition discriminate.
  - apply elem_of_cons. by left.
  - apply elem_of_cons. right. apply elem_of_cons. by left.
  - exists ch. split; [exact Hparse|exact Hrealm].
Defined.

Section authorization_more.
Context `{Runtime}.
Import Digest.

(** The qop [pickQop] selects is never empty and is one of the tokens the
    challenge lists (comma-separated, trimmed); it is [auth] whenever [auth]
    is listed, wherever in the list; and nothing is selected exactly when
    every token is empty. *)
Theorem pickQop_selects (q : string) :
  let tokens := Js.trim <$> Js.split "," q in
  (forall r, pickQop (Some q) = Some r ->
     r ≠ "" /\ r ∈ tokens /\ ("auth" ∈ tokens -> r = "auth")) /\
  (pickQop (Some q) = None <-> forall t, t ∈ tokens -> t = "").
Proof.
  intros tokens. unfold pickQop.
  destruct (decide (q = "")) as [->|Hq].
  { cbn. split; [done|]. split; [|done]. intros _ t.
    rewrite list_elem_of_singleton. by intros ->. }
  replace (truthy (Some q)) with true by (by destruct q).
  change (default "" (Some q)) with q. fold tokens.
  split.
  - intros r. case_bool_decide as Hauth.
    + intros [= <-]. apply list_elem_of_filter in Hauth as [_ Hin]. by repeat split.
    + intros Hr%head_Some_elem_of. apply list_elem_of_filter in Hr as [Hne Hin].
      split; [done|]. split; [done|]. intros Ha. destruct Hauth.
      apply list_elem_of_filter. done.
  - case_bool_decide as Hauth.
    + split; [done|]. intros Hall. apply list_elem_of_filter in Hauth as [_ Hin].
      by apply Hall in Hin.
    + split.
      * intros Hnone t Ht. destruct (decide (t = "")) as [|Hne]; [done|].
        assert (Hin : t ∈ filter (fun s => s ≠ "") tokens) by (by apply list_elem_of_filter).
        destruct (filter _ tokens); [by apply elem_of_nil in Hin|done].
      * intros Hall. destruct (filter _ tokens) as [|t l] eqn:Hf; [done|].
        assert (Hin : t ∈ filter (fun s => s ≠ "") tokens) by (rewrite Hf; by left).
        apply list_elem_of_filter in Hin as [Hne Hin]. by apply Hall in Hin.
Qed.

Lemma pickQop_selects_witness : pickQop (Some "auth-int, auth") = Some "auth".
Proof.
  destruct (pickQop (Some "auth-int, auth")) as [r|] eqn:Hr; [|by vm_compute in Hr].
  destruct (proj1 (pickQop_selects "auth-int, auth") r Hr) as (_ & _ & Hauth).
  f_equal. apply Hauth. vm_compute. apply elem_of_cons. right. apply elem_of_cons. by left.
Defined.

(** Without a selected qop and without a session algorithm, the header
    depends neither on the nonce-count nor on the client nonce. *)
Theorem legacy_header_ignores_nc_and_cnonce (params : DigestParams) (cnonce : string) :
  qop params = None ->
  Js.endsWith (algorithm params) "-SESS" = false ->
  forall nc' cnonce',
    buildDigestAuthorization params cnonce
    = buildDigestAuthorization
        {| username := username params; password := password params;
           method := method params; uri := uri params;
           challenge := challenge params; nc := nc' |} cnonce'.
Proof.
  intros Hq Hsess nc' cnonce'.
  unfold buildDigestAuthorization, parts, response, ha1, ha2, ha1Base, opaque, realm, nonce,
    algorithm, algorithmRaw, qop in *.
  cbn [username password method uri challenge nc]. by rewrite Hq, Hsess.
Qed.

Lemma hex_value_padStart (k : nat) ds :
  hex_value (Js.padStart k "0" ds) = hex_value ds.
Proof.
  unfold Js.padStart, hex_value. generalize (k - String.length ds)%nat as m.
  induction m as [|m IH]; [done|]. cbn [Js.repeat_char]. by rewrite append_cons.
Qed.

Lemma hex_value_N_to_hex n : hex_value (Js.N_to_hex n) = n.
Proof.
  apply (N_to_hex_spec (S (N.to_nat (N.log2 n))) n); [lia|].
  replace (N.of_nat (S (N.to_nat (N.log2 n)))) with (N.succ (N.log2 n)) by lia.
  destruct (decide (n = 0%N)) as [->|Hn0]; [done|].
  eapply N.lt_le_trans; [apply N.log2_spec; lia|].
  apply N.pow_le_mono_l. lia.
Qed.

(** The formatted nonce-count determines the count: two different
    non-negative counts are never formatted alike, whatever their size. *)
Theorem ncStr_injective (p1 p2 : DigestParams) :
  0 <= nc p1 -> 0 <= nc p2 -> ncStr p1 = ncStr p2 -> nc p1 = nc p2.
Proof.
  intros H1 H2 Heq.
  assert (Hval : forall p, 0 <= nc p -> hex_value (ncStr p) = Z.to_N (nc p)).
  { intros p Hp. unfold ncStr, Js.toString16. rewrite hex_value_padStart.
    destruct (nc p) eqn:E; [apply hex_value_N_to_hex..|lia]. }
  pose proof (Hval p1 H1) as Hv1. rewrite Heq, (Hval p2 H2) in Hv1. lia.
Qed.

End authorization_more.

Lemma legacy_header_ignores_nc_and_cnonce_witness :
  let p := {| Digest.username := "admin"; Digest.password := "secret";
              Digest.method := "POST"; Digest.uri := "/jsonPTS";
              Digest.challenge := {[ "realm" := "PTS"; "nonce" := "5f2a9c" ]};
              Digest.nc := 1 |} in
  Digest.buildDigestAuthorization (H := Mock.rt) p "0a4f113b"
  = Digest.buildDigestAuthorization (H := Mock.rt)
      {| Digest.username := Digest.username p; Digest.password := Digest.password p;
         Digest.method := Digest.method p; Digest.uri := Digest.uri p;
         Digest.challenge := Digest.challenge p; Digest.nc := 2 |} "77e1".
Proof.
  intros p.
  assert (Hq : Digest.qop p = None) by (vm_compute; reflexivity).
  assert (Hs : Js.endsWith (Digest.algorithm p) "-SESS" = false) by (vm_compute; reflexivity).
  exact (legacy_header_ignores_nc_and_cnonce (H := Mock.rt) p "0a4f113b" Hq Hs 2 "77e1").
Defined.

Lemma ncStr_injective_witness :
  Digest.nc (Client.digest_params Mock.digest_cfg ∅ 77)
  = Digest.nc (Client.digest_params Mock.basic_cfg {[ "realm" := "PTS" ]} (70 + 7)).
Proof.
  apply (ncStr_injective (Client.digest_params Mock.digest_cfg ∅ 77)
           (Client.digest_params Mock.basic_cfg {[ "realm" := "PTS" ]} (70 + 7)));
    [cbn; lia | cbn; lia | reflexivity].
Defined.

Lemma rejected_fetch_classified_witness :
  exists c msg,
    Client.respond (H := Mock.rt) "https://pts.local:443/jsonPTS"
      (Rejects {| err_name := Some "TypeError"; err_code := None;
                  err_message := Some "fetch failed";
                  cause_code := Some "ETIMEDOUT"; cause_message := None |})
    = Throw (Pts2TransportError Timeout "https://pts.local:443/jsonPTS" c msg).
Proof.
  destruct (rejected_fetch_classified (H := Mock.rt) "https://pts.local:443/jsonPTS"
              {| err_name := Some "TypeError"; err_code := None;
                 err_message := Some "fetch failed";
                 cause_code := Some "ETIMEDOUT"; cause_message := None |})
    as (kind & c & msg & Hresp & Hkind & _).
  assert (Ht : kind = Timeout).
  { apply Hkind. right. cbn. apply elem_of_cons. right. apply elem_of_cons. by left. }
  rewrite Ht in Hresp. by exists c, msg.
Defined.

Section transport_more.
Context `{Runtime}.
Import Config Client.

Lemma length_take n s : (String.length (Js.take n s) <= n)%nat.
Proof.
  revert s. induction n as [|n IH]; intros [|c s]; cbn; try lia.
  specialize (IH s). lia.
Qed.

(** One exchange succeeds exactly when the status is in 200..299, the
    response declares a content type containing [application/json] and the
    body parses; a 2xx answer without that content type is an error even
    if its body is JSON, and the text quoted in that error is cut at 200
    characters. *)
Theorem respond_success (url : string) (res : HttpResponse) :
  (forall v,
     respond url (Resolves res) = Ok (RawJson v) <->
     200 <= status res <= 299 /\
     (exists ct, headers_get (headers res) "content-type" = Some ct /\
                 Js.includes ct "application/json" = true) /\
     JSON_parse (text res) = Some v) /\
  (forall t, respond url (Resolves res) = Throw (NonJson t) ->
     200 <= status res <= 299 /\ t = Js.take 200 (text res) /\ (String.length t <= 200)%nat).
Proof.
  cbn [respond]. split.
  - intros v. case_decide as H401.
    { split; [done|]. intros ([? ?] & _). lia. }
    destruct (Z.leb_spec 200 (status res)), (Z.leb_spec (status res) 299); cbn [andb negb];
      try (split; [done|]; intros ([? ?] & _); lia).
    destruct (headers_get (headers res) "content-type") as [ct|] eqn:Hct.
    + destruct (Js.includes ct "application/json") eqn:Hinc.
      * destruct (JSON_parse (text res)) as [v'|] eqn:Hp.
        -- split; [intros [= <-]; by eauto 10|]. by intros (_ & _ & [= <-]).
        -- split; [done|]. by intros (_ & _ & ?).
      * split; [done|]. intros (_ & (ct' & [= <-] & Hinc') & _). congruence.
    + split; [done|]. by intros (_ & (ct' & ? & _) & _).
  - intros t. case_decide as H401; [done|].
    destruct (Z.leb_spec 200 (status res)), (Z.leb_spec (status res) 299); cbn [andb negb];
      try done.
    pose proof (length_take 200 (text res)) as Hlen.
    set (cut := Js.take 200 (text res)) in *.
    assert (Hcut : forall t', Throw (NonJson cut) = @Throw Raw (NonJson t') ->
                     200 <= status res <= 299 /\ t' = cut /\ (String.length t' <= 200)%nat).
    { intros t' [= <-]. split; [lia|]. by split. }
    destruct (headers_get (headers res) "content-type") as [ct|]; [|apply Hcut].
    destruct (Js.includes ct "application/json"); [|apply Hcut].
    by destruct (JSON_parse (text res)).
Qed.

(** The client a minimal environment gives: with only a non-empty
    [PTS2_HOST] set, loading succeeds and the client talks https on port
    443 at path [/jsonPTS], with the digest scheme, a 15 second timeout and
    certificate verification switched off. *)
Theorem minimal_environment_client (h : string) :
  h ≠ "" ->
  exists cfg,
    loadPts2ConfigFromEnv {[ "PTS2_HOST" := h ]} = Ok cfg /\
    baseUrl cfg = "https://" +:+ h +:+ ":443/jsonPTS" /\
    auth cfg = Digest /\ timeoutMs cfg = 15000 /\
    forall body hs, req_insecure (fetch_init cfg body hs) = true.
Proof.
  intros Hh. unfold loadPts2ConfigFromEnv, schema_parse.
  assert (Hraw : raw_of_env {[ "PTS2_HOST" := h ]}
                 = {| raw_host := h; raw_security := "https"; raw_httpPort := 80;
                      raw_httpsPort := 443; raw_auth := "digest"; raw_login := "";
                      raw_password := ""; raw_timeoutMs := 15000;
                      raw_tlsInsecure := true |}).
  { unfold raw_of_env. rewrite lookup_singleton_eq.
    rewrite !lookup_singleton_ne by done. reflexivity. }
  rewrite Hraw. unfold schema_issues. cbn [raw_host raw_security raw_httpPort raw_httpsPort
                                           raw_auth raw_timeoutMs raw_login raw_password
                                           raw_tlsInsecure].
  rewrite decide_False by (by destruct h).
  eexists. split; [reflexivity|]. done.
Qed.

End transport_more.

Lemma respond_success_witness :
  exists v,
    Client.respond (H := Mock.rt) "https://pts.local:443/jsonPTS"
      (Resolves {| status := 200; headers := [("content-type", "application/json")];
                   text := "confirmation" |})
    = Ok (RawJson v) /\ Jsonpts.top_field "Protocol" v = Some (JStr "jsonPTS").
Proof.
  eexists. split; [|shelve].
  apply (proj1 (respond_success (H := Mock.rt) _
                  {| status := 200; headers := [("content-type", "application/json")];
                     text := "confirmation" |})).
  split; [cbn; lia|]. split; [by eexists|]. reflexivity.
  Unshelve. reflexivity.
Defined.

Lemma minimal_environment_client_witness :
  exists cfg,
    Config.loadPts2ConfigFromEnv {[ "PTS2_HOST" := "10.0.0.7" ]} = Ok cfg /\
    Client.baseUrl cfg = "https://10.0.0.7:443/jsonPTS".
Proof.
  destruct (minimal_environment_client "10.0.0.7" ltac:(discriminate))
    as (cfg & Hload & Hurl & _).
  by exists cfg.
Defined.
